(** * vector_benchmark.cpp: seven ways of filling a sequence of [MyStruct]

    A shallow embedding of [src/vector_benchmark.cpp].  The C++ abstract
    machine is reduced to what the benchmark bodies touch: a heap of storage
    blocks whose slots are either uninitialised or hold a [MyStruct], a
    counter that names allocations, and the list of events a run emits
    (allocation, lambda call, temporary, construction, assignment, release,
    [DoNotOptimize]).  Integer types are [Z] with the conversions the source
    performs written out for the x86-64 targets its comments describe (4-byte
    [int], 8-byte [MyStruct], 64-bit [size_t]).

    Obtaining storage always succeeds: exhaustion of memory ends the process
    and is not part of the model, and [std::vector] has no [max_size].
    What the model does detect is a write or read outside a block, through a
    released pointer, or of an uninitialised slot.

    [std::vector], the range views and the benchmark library are not part of
    the repository; they are modelled by what the benchmark uses of them. *)

From stdpp Require Import base numbers option list list_numbers gmap strings.

Open Scope Z_scope.

(** ** Integer types and conversions *)

Definition SIZE_MOD : Z := 18446744073709551616.   (* 2^64 *)
Definition INT64_LIM : Z := 9223372036854775808.   (* 2^63 *)
Definition UINT_MOD : Z := 4294967296.             (* 2^32 *)
Definition INT_LIM : Z := 2147483648.              (* 2^31 *)

(** [size_t N = state.range(0)]: int64_t to size_t. *)
Definition size_t_of_int64 (a : Z) : Z := a mod SIZE_MOD.

(** size_t to int, implicit in [MyStruct(i, i)] and explicit in
    [static_cast<int>(i)]: reduction modulo 2^32 into the signed range. *)
Definition int_of_size_t (i : Z) : Z :=
  let r := i mod UINT_MOD in
  if bool_decide (r < INT_LIM) then r else r - UINT_MOD.

Definition static_cast_int (i : Z) : Z := int_of_size_t i.

(** size_t to int64_t, at the parameter of [SetItemsProcessed]. *)
Definition int64_of_size_t (u : Z) : Z :=
  let r := u mod SIZE_MOD in
  if bool_decide (r < INT64_LIM) then r else r - SIZE_MOD.

(** Multiplication in size_t. *)
Definition size_t_mul (a b : Z) : Z := (a * b) mod SIZE_MOD.

(** ** The record type *)

Record MyStruct : Type := mkMyStruct { x : Z; y : Z }.

Global Instance MyStruct_eq_dec : EqDecision MyStruct.
Proof. solve_decision. Defined.

(** [MyStruct(int a, int b) : x(a), y(b) {}] *)
Definition MyStruct_ctor (a b : Z) : MyStruct := {| x := a; y := b |}.

Definition sizeof_MyStruct : Z := 8.

(** ** Machine: heap, allocation counter, events *)

Abbreviation block := (list (option MyStruct)).

Inductive event : Type :=
  | EvAlloc (p : nat) (slots : Z)
  | EvLambda (i : Z)
  | EvTemp (v : MyStruct)
  | EvConstruct (p : nat) (i : Z) (v : MyStruct)
  | EvCopy (p : nat) (i : Z) (v : MyStruct)
  | EvAssign (p : nat) (i : Z) (v : MyStruct)
  | EvFree (p : nat)
  | EvObserve (p : option nat) (seen : option (list MyStruct)).

Record machine : Type := mkMachine { heap : gmap nat block; next : nat }.

Definition initial_machine : machine := {| heap := ∅; next := 0%nat |}.

(** Undefined behaviour the model detects. *)
Inductive failure : Type :=
  | out_of_bounds
  | invalid_pointer
  | uninitialized_read.

Inductive result (A : Type) : Type :=
  | Ok (a : A) (m : machine) (evs : list event)
  | Fail (e : failure) (m : machine) (evs : list event).
Arguments Ok {A} a m evs.
Arguments Fail {A} e m evs.

Definition M (A : Type) : Type := machine → result A.

Definition ret {A} (a : A) : M A := λ m, Ok a m [].

Definition bind {A B} (c : M A) (k : A → M B) : M B := λ m,
  match c m with
  | Ok a m1 e1 =>
      match k a m1 with
      | Ok b m2 e2 => Ok b m2 (e1 ++ e2)
      | Fail f m2 e2 => Fail f m2 (e1 ++ e2)
      end
  | Fail f m1 e1 => Fail f m1 e1
  end.

Notation "v <- c ;; k" := (bind c (λ v, k))
  (at level 100, c at next level, right associativity).
Notation "c ;; k" := (bind c (λ _, k))
  (at level 100, right associativity).

Definition emit (e : event) : M unit := λ m, Ok tt m [e].
Definition throw {A} (f : failure) : M A := λ m, Fail f m [].

Definition events {A} (r : result A) : list event :=
  match r with Ok _ _ evs | Fail _ _ evs => evs end.

(** ** Loops *)

(** [for (size_t i = i0; i < N; ++i) body] with [cnt] iterations left; the
    loop state [s] is the local the body mutates. *)
Fixpoint for_loop {St : Type} (cnt : nat) (i : Z) (body : Z → St → M St)
    (s : St) : M St :=
  match cnt with
  | O => ret s
  | S c => s' <- body i s ;; for_loop c (i + 1) body s'
  end.

Definition for_size_t {St : Type} (N : Z) (body : Z → St → M St) (s : St)
  : M St :=
  for_loop (Z.to_nat N) 0 body s.

(** ** Raw storage *)

Definition allocate (slots : Z) : M nat := λ m,
  let p := next m in
  Ok p {| heap := <[p := replicate (Z.to_nat slots) None]> (heap m);
          next := S p |}
     [EvAlloc p slots].

(** [(MyStruct* )new std::byte[bytes]]: the block seen as [MyStruct] slots. *)
Definition new_byte_array (bytes : Z) : M nat :=
  allocate (bytes / sizeof_MyStruct).

Definition write_slot (p : nat) (i : Z) (v : MyStruct) : M unit := λ m,
  match heap m !! p with
  | None => Fail invalid_pointer m []
  | Some b =>
      if bool_decide (0 ≤ i < Z.of_nat (length b))
      then Ok tt {| heap := <[p := <[Z.to_nat i := Some v]> b]> (heap m);
                    next := next m |} []
      else Fail out_of_bounds m []
  end.

Definition read_slot (p : nat) (i : Z) : M MyStruct := λ m,
  match heap m !! p with
  | None => Fail invalid_pointer m []
  | Some b =>
      match b !! Z.to_nat i with
      | Some (Some v) => Ok v m []
      | Some None => Fail uninitialized_read m []
      | None => Fail out_of_bounds m []
      end
  end.

(** [::new (static_cast<void*>(vec + i)) MyStruct(a, b)] *)
Definition placement_new (p : nat) (i : Z) (a b : Z) : M unit :=
  write_slot p i (MyStruct_ctor a b) ;;
  emit (EvConstruct p i (MyStruct_ctor a b)).

(** [std::construct_at(vec + i, a, b)]: placement new inside <memory>. *)
Definition construct_at (p : nat) (i : Z) (a b : Z) : M unit :=
  placement_new p i a b.

(** Copy or move construction of slot [i] from an existing object. *)
Definition copy_construct (p : nat) (i : Z) (v : MyStruct) : M unit :=
  write_slot p i v ;; emit (EvCopy p i v).

(** A prvalue [MyStruct(a, b)] materialised as a temporary or a local. *)
Definition materialize (a b : Z) : M MyStruct :=
  emit (EvTemp (MyStruct_ctor a b)) ;; ret (MyStruct_ctor a b).

(** [vec[i] = tmp] *)
Definition assign (p : nat) (i : Z) (v : MyStruct) : M unit :=
  write_slot p i v ;; emit (EvAssign p i v).

(** [delete[] vec] *)
Definition delete_array (p : nat) : M unit := λ m,
  match heap m !! p with
  | None => Fail invalid_pointer m []
  | Some _ => Ok tt {| heap := delete p (heap m); next := next m |} [EvFree p]
  end.

(** ** std::vector<MyStruct> *)

(** Begin pointer, size and capacity; elements live in the heap block. *)
Record vector : Type := mkVector { vbuf : option nat; vsize : Z; vcap : Z }.

(** [std::vector<MyStruct> vec;] *)
Definition vector_default : vector := {| vbuf := None; vsize := 0; vcap := 0 |}.

Definition move_elements (src dst : nat) (n : Z) : M unit :=
  for_size_t n (λ i _, v <- read_slot src i ;; copy_construct dst i v) tt.

(** New storage of capacity [n]; the elements move over and the old storage
    is released. *)
Definition reallocate (n : Z) (v : vector) : M vector :=
  p' <- allocate n ;;
  match vbuf v with
  | None => ret tt
  | Some p => move_elements p p' (vsize v) ;; delete_array p
  end ;;
  ret {| vbuf := Some p'; vsize := vsize v; vcap := n |}.

(** [vec.reserve(n)] *)
Definition reserve (n : Z) (v : vector) : M vector :=
  if bool_decide (vcap v < n) then reallocate n v else ret v.

(** Capacity after growth: size + max(size, 1). *)
Definition grown_capacity (v : vector) : Z := vsize v + Z.max (vsize v) 1.

(** Construct the element one past the last one with [ctor]. *)
Definition construct_next (ctor : nat → Z → M unit) (v : vector) : M vector :=
  match vbuf v with
  | None => throw invalid_pointer
  | Some p =>
      ctor p (vsize v) ;;
      ret {| vbuf := vbuf v; vsize := vsize v + 1; vcap := vcap v |}
  end.

Definition append (ctor : nat → Z → M unit) (v : vector) : M vector :=
  v' <- (if bool_decide (vsize v < vcap v) then ret v
         else reallocate (grown_capacity v) v) ;;
  construct_next ctor v'.

(** [vec.emplace_back(a, b)]: the element is built in place from [a], [b]. *)
Definition emplace_back (a b : Z) (v : vector) : M vector :=
  append (λ p i, construct_at p i a b) v.

(** [vec.push_back(obj)] and [vec.emplace_back(std::move(obj))]: the element
    is copy- or move-constructed from [obj]. *)
Definition push_back (obj : MyStruct) (v : vector) : M vector :=
  append (λ p i, copy_construct p i obj) v.

(** End of the scope of [vec]. *)
Definition vector_destroy (v : vector) : M unit :=
  match vbuf v with
  | None => ret tt
  | Some p => delete_array p
  end.

(** ** Lazy ranges: [std::views::iota(a, b) | std::views::transform(f)] *)

Record transform_view : Type :=
  mkView { iota_first : Z; iota_last : Z; transform_fn : Z → MyStruct }.

Definition iota_transform (a b : Z) (f : Z → MyStruct) : transform_view :=
  {| iota_first := a; iota_last := b; transform_fn := f |}.

Record view_iterator : Type := mkIter { it_fn : Z → MyStruct; it_pos : Z }.

Definition view_begin (rg : transform_view) : view_iterator :=
  {| it_fn := transform_fn rg; it_pos := iota_first rg |}.
Definition view_end (rg : transform_view) : view_iterator :=
  {| it_fn := transform_fn rg; it_pos := iota_last rg |}.

(** [*it]: the lambda runs when the element is asked for. *)
Definition deref (f : Z → MyStruct) (pos : Z) : M MyStruct :=
  emit (EvLambda pos) ;; ret (f pos).

(** [std::vector<MyStruct> vec(std::from_range, rg)]: the range is sized, so
    storage for exactly its size is obtained once and filled. *)
Definition vector_from_range (rg : transform_view) : M vector :=
  v <- reserve (iota_last rg - iota_first rg) vector_default ;;
  for_loop (Z.to_nat (iota_last rg - iota_first rg)) (iota_first rg)
    (λ pos v, obj <- deref (transform_fn rg) pos ;;
              construct_next (λ p i, copy_construct p i obj) v)
    v.

(** [std::vector<MyStruct> vec(first, last)]: the iterators of a transform
    view that yields prvalues are C++17 input iterators, so the constructor
    appends element by element, growing as it goes. *)
Definition vector_from_iterators (first last : view_iterator) : M vector :=
  for_loop (Z.to_nat (it_pos last - it_pos first)) (it_pos first)
    (λ pos v, obj <- deref (it_fn first) pos ;; push_back obj v)
    vector_default.

(** ** What a variant has built *)

Inductive handle : Type :=
  | RawBlock (p : nat)
  | Vector (v : vector).

(** The sequence a handle denotes in machine [m]: every slot of a live raw
    block, or the first [size] slots of a vector's storage.  [None] when the
    storage is gone or a slot is uninitialised. *)
Definition collection (m : machine) (h : handle) : option (list MyStruct) :=
  match h with
  | RawBlock p => b ← heap m !! p; mapM id b
  | Vector v =>
      match vbuf v with
      | None => if bool_decide (vsize v = 0) then Some [] else None
      | Some p => b ← heap m !! p; mapM id (take (Z.to_nat (vsize v)) b)
      end
  end.

Definition storage (h : handle) : option nat :=
  match h with
  | RawBlock p => Some p
  | Vector v => vbuf v
  end.

(** [benchmark::DoNotOptimize(vec)]: the value of [vec] is forced; the event
    records what [vec] denotes at that moment. *)
Definition DoNotOptimize (h : handle) : M unit := λ m,
  Ok tt m [EvObserve (storage h) (collection m h)].

(** ** The seven variants

    Each [_build] is the part of the timed loop body up to the point where
    the collection is complete; each [_body] is the whole loop body. *)

Definition BM_CBaseline_build (N : Z) : M nat :=
  vec <- new_byte_array (size_t_mul sizeof_MyStruct N) ;;
  for_size_t N
    (λ i _, placement_new vec i (int_of_size_t i) (int_of_size_t i)) tt ;;
  ret vec.

Definition BM_CBaseline_body (N : Z) : M unit :=
  vec <- BM_CBaseline_build N ;;
  delete_array vec ;;
  DoNotOptimize (RawBlock vec).

Definition BM_EmplaceBack_build (N : Z) : M vector :=
  vec <- reserve N vector_default ;;
  for_size_t N
    (λ i vec, emplace_back (int_of_size_t i) (int_of_size_t i) vec) vec.

Definition BM_EmplaceBack_body (N : Z) : M unit :=
  vec <- BM_EmplaceBack_build N ;;
  DoNotOptimize (Vector vec) ;;
  vector_destroy vec.

Definition BM_PushBack_build (N : Z) : M vector :=
  vec <- reserve N vector_default ;;
  for_size_t N
    (λ i vec, obj <- materialize (int_of_size_t i) (int_of_size_t i) ;;
              push_back obj vec) vec.

Definition BM_PushBack_body (N : Z) : M unit :=
  vec <- BM_PushBack_build N ;;
  DoNotOptimize (Vector vec) ;;
  vector_destroy vec.

(** [[](size_t i){ return MyStruct(i,i); }] *)
Definition make_record (i : Z) : MyStruct :=
  MyStruct_ctor (int_of_size_t i) (int_of_size_t i).

Definition BM_FromRange_build (N : Z) : M vector :=
  vector_from_range (iota_transform 0 N make_record).

Definition BM_FromRange_body (N : Z) : M unit :=
  vec <- BM_FromRange_build N ;;
  DoNotOptimize (Vector vec) ;;
  vector_destroy vec.

Definition BM_FromRangeIterators_build (N : Z) : M vector :=
  let range := iota_transform 0 N make_record in
  vector_from_iterators (view_begin range) (view_end range).

Definition BM_FromRangeIterators_body (N : Z) : M unit :=
  vec <- BM_FromRangeIterators_build N ;;
  DoNotOptimize (Vector vec) ;;
  vector_destroy vec.

Definition BM_CBaseline2_build (N : Z) : M nat :=
  vec <- new_byte_array (size_t_mul sizeof_MyStruct N) ;;
  for_size_t N
    (λ i _, tmp <- materialize (int_of_size_t i) (int_of_size_t i) ;;
            assign vec i tmp) tt ;;
  ret vec.

Definition BM_CBaseline2_body (N : Z) : M unit :=
  vec <- BM_CBaseline2_build N ;;
  delete_array vec ;;
  DoNotOptimize (RawBlock vec).

Definition BM_CBaseline3_build (N : Z) : M nat :=
  vec <- new_byte_array (size_t_mul sizeof_MyStruct N) ;;
  for_size_t N
    (λ i _, construct_at vec i (static_cast_int i) (static_cast_int i)) tt ;;
  ret vec.

Definition BM_CBaseline3_body (N : Z) : M unit :=
  vec <- BM_CBaseline3_build N ;;
  delete_array vec ;;
  DoNotOptimize (RawBlock vec).

(** ** benchmark::State and the benchmark functions *)

Record State : Type :=
  mkState { range0 : Z; iterations : Z; items_processed : Z }.

(** [for (auto _ : state) body] *)
Definition for_each_iteration (state : State) (body : M unit) : M unit :=
  for_loop (Z.to_nat (iterations state)) 0 (λ _ _, body) tt.

(** [state.SetItemsProcessed(items)], [items] being an int64_t. *)
Definition SetItemsProcessed (items : Z) (state : State) : State :=
  {| range0 := range0 state;
     iterations := iterations state;
     items_processed := items |}.

(** The frame the seven benchmark functions share:
    [size_t N = state.range(0); for (auto _ : state) { body }
     state.SetItemsProcessed(state.iterations() * N);]
    The product is taken in size_t and handed over as int64_t. *)
Definition benchmark_fn (body : Z → M unit) (state : State) : M State :=
  let N := size_t_of_int64 (range0 state) in
  for_each_iteration state (body N) ;;
  ret (SetItemsProcessed
         (int64_of_size_t (size_t_mul (size_t_of_int64 (iterations state)) N))
         state).

Definition BM_CBaseline : State → M State := benchmark_fn BM_CBaseline_body.
Definition BM_EmplaceBack : State → M State := benchmark_fn BM_EmplaceBack_body.
Definition BM_PushBack : State → M State := benchmark_fn BM_PushBack_body.
Definition BM_FromRange : State → M State := benchmark_fn BM_FromRange_body.
Definition BM_FromRangeIterators : State → M State :=
  benchmark_fn BM_FromRangeIterators_body.
Definition BM_CBaseline2 : State → M State := benchmark_fn BM_CBaseline2_body.
Definition BM_CBaseline3 : State → M State := benchmark_fn BM_CBaseline3_body.

(** ** Registration *)

Record Benchmark : Type := mkBenchmark {
  bm_name : string;
  bm_fn : State → M State;
  bm_args : list Z;
  bm_repetitions : option Z
}.

Definition BENCHMARK (name : string) (fn : State → M State) : Benchmark :=
  {| bm_name := name; bm_fn := fn; bm_args := []; bm_repetitions := None |}.

Definition Arg (a : Z) (b : Benchmark) : Benchmark :=
  {| bm_name := bm_name b; bm_fn := bm_fn b;
     bm_args := bm_args b ++ [a]; bm_repetitions := bm_repetitions b |}.

Definition Repetitions (n : Z) (b : Benchmark) : Benchmark :=
  {| bm_name := bm_name b; bm_fn := bm_fn b;
     bm_args := bm_args b; bm_repetitions := Some n |}.

Definition registered_benchmarks : list Benchmark :=
  [ Repetitions 20 (Arg 500000 (BENCHMARK "BM_FromRange" BM_FromRange));
    Repetitions 20
      (Arg 500000 (BENCHMARK "BM_FromRangeIterators" BM_FromRangeIterators));
    Repetitions 20 (Arg 500000 (BENCHMARK "BM_EmplaceBack" BM_EmplaceBack));
    Repetitions 20 (Arg 500000 (BENCHMARK "BM_PushBack" BM_PushBack));
    Repetitions 20 (Arg 500000 (BENCHMARK "BM_CBaseline" BM_CBaseline));
    Repetitions 20 (Arg 500000 (BENCHMARK "BM_CBaseline2" BM_CBaseline2));
    Repetitions 20 (Arg 500000 (BENCHMARK "BM_CBaseline3" BM_CBaseline3)) ].

(** ** The variants under one interface *)

Inductive variant : Type :=
  | CBaseline | EmplaceBack | PushBack | FromRange | FromRangeIterators
  | CBaseline2 | CBaseline3.

Definition all_variants : list variant :=
  [CBaseline; EmplaceBack; PushBack; FromRange; FromRangeIterators;
   CBaseline2; CBaseline3].

Definition is_raw (v : variant) : bool :=
  match v with
  | CBaseline | CBaseline2 | CBaseline3 => true
  | _ => false
  end.

Definition lift_raw (c : M nat) : M handle := p <- c ;; ret (RawBlock p).
Definition lift_vec (c : M vector) : M handle := v <- c ;; ret (Vector v).

Definition build (v : variant) (N : Z) : M handle :=
  match v with
  | CBaseline => lift_raw (BM_CBaseline_build N)
  | EmplaceBack => lift_vec (BM_EmplaceBack_build N)
  | PushBack => lift_vec (BM_PushBack_build N)
  | FromRange => lift_vec (BM_FromRange_build N)
  | FromRangeIterators => lift_vec (BM_FromRangeIterators_build N)
  | CBaseline2 => lift_raw (BM_CBaseline2_build N)
  | CBaseline3 => lift_raw (BM_CBaseline3_build N)
  end.

Definition body (v : variant) (N : Z) : M unit :=
  match v with
  | CBaseline => BM_CBaseline_body N
  | EmplaceBack => BM_EmplaceBack_body N
  | PushBack => BM_PushBack_body N
  | FromRange => BM_FromRange_body N
  | FromRangeIterators => BM_FromRangeIterators_body N
  | CBaseline2 => BM_CBaseline2_body N
  | CBaseline3 => BM_CBaseline3_body N
  end.

(** The reference sequence [Record(0,0), ..., Record(N-1,N-1)]. *)
Definition reference (N : Z) : list MyStruct :=
  (λ i, {| x := i; y := i |}) <$> seqZ 0 N.

(** What the code stores: the index after its conversion to [int]. *)
Definition built (N : Z) : list MyStruct := make_record <$> seqZ 0 N.

(** ** Reading event lists *)

Definition lambda_calls (evs : list event) : list Z :=
  omap (λ e, match e with EvLambda i => Some i | _ => None end) evs.

(** Every initialisation of a slot, however it is done. *)
Definition writes (evs : list event) : list (nat * Z * MyStruct) :=
  omap (λ e, match e with
             | EvConstruct p i v | EvCopy p i v | EvAssign p i v =>
                 Some (p, i, v)
             | _ => None
             end) evs.

(** The slots of block [p] that are initialised, in order. *)
Definition slot_writes (p : nat) (evs : list event) : list Z :=
  omap (λ w, if bool_decide (w.1.1 = p) then Some w.1.2 else None)
       (writes evs).

Definition slots_allocated (evs : list event) : Z :=
  foldr (λ e acc, match e with EvAlloc _ n => n + acc | _ => acc end) 0 evs.

Definition allocated_blocks (evs : list event) : list nat :=
  omap (λ e, match e with EvAlloc p _ => Some p | _ => None end) evs.

(** Events that initialise a slot directly from constructor arguments, or
    do not initialise anything. *)
Definition in_place (e : event) : bool :=
  match e with
  | EvTemp _ | EvCopy _ _ _ | EvAssign _ _ _ => false
  | _ => true
  end.

Definition is_construct (e : event) : bool :=
  match e with
  | EvConstruct _ _ _ => true
  | _ => false
  end.

(** A result without the events that led to it. *)
Definition without_events {A} (r : result A) : failure * machine + A * machine :=
  match r with
  | Ok a m _ => inr (a, m)
  | Fail f m _ => inl (f, m)
  end.

(** What a run leaves behind, without the names of its storage. *)
Definition outcome (r : result handle) : failure + option (list MyStruct) :=
  match r with
  | Ok h m _ => inr (collection m h)
  | Fail f _ _ => inl f
  end.

(** ** Invariants used by the proofs *)

(** Block names from [next m] on are unused. *)
Definition fresh_from (m : machine) : Prop :=
  ∀ q, (next m ≤ q)%nat → heap m !! q = None.

(** Vector [v] holds exactly [l] in machine [m]. *)
Definition vec_rep (m : machine) (v : vector) (l : list MyStruct) : Prop :=
  vsize v = Z.of_nat (length l) ∧ vsize v ≤ vcap v ∧
  match vbuf v with
  | None => vcap v = 0
  | Some p =>
      (p < next m)%nat ∧
      heap m !! p =
        Some ((Some <$> l) ++ replicate (Z.to_nat (vcap v) - length l) None)
  end.

(** The storage of [v] was obtained at allocation [n0] or later. *)
Definition since (n0 : nat) (v : vector) (m : machine) : Prop :=
  (n0 ≤ next m)%nat ∧ ∀ p, vbuf v = Some p → (n0 ≤ p)%nat.

(** A raw fill step: it initialises slot [i] with [make_record i], emitting
    [evok] when the slot exists and [evfail] when it does not. *)
Definition raw_step_spec (step : nat → Z → M unit)
    (evok evfail : nat → Z → list event) : Prop :=
  ∀ p i m,
    step p i m =
      match write_slot p i (make_record i) m with
      | Ok _ m' _ => Ok tt m' (evok p i)
      | Fail f m' _ => Fail f m' (evfail p i)
      end.

(** A constructor of slot [i] with value [val], emitting [evc]. *)
Definition ctor_spec (ctor : nat → Z → M unit) (val : MyStruct)
    (evc : nat → Z → list event) : Prop :=
  ∀ p i m,
    ctor p i m =
      match write_slot p i val m with
      | Ok _ m' _ => Ok tt m' (evc p i)
      | Fail f m' _ => Fail f m' []
      end.

(** The shape shared by the three raw variants. *)
Definition raw_build (step : nat → Z → M unit) (N : Z) : M nat :=
  vec <- new_byte_array (size_t_mul sizeof_MyStruct N) ;;
  for_size_t N (λ i _, step vec i) tt ;;
  ret vec.

Definition raw_step (v : variant) : nat → Z → M unit :=
  match v with
  | CBaseline2 =>
      λ vec i, tmp <- materialize (int_of_size_t i) (int_of_size_t i) ;;
               assign vec i tmp
  | CBaseline3 =>
      λ vec i, construct_at vec i (static_cast_int i) (static_cast_int i)
  | _ => λ vec i, placement_new vec i (int_of_size_t i) (int_of_size_t i)
  end.

Definition raw_evok (v : variant) (p : nat) (i : Z) : list event :=
  match v with
  | CBaseline2 => [EvTemp (make_record i); EvAssign p i (make_record i)]
  | _ => [EvConstruct p i (make_record i)]
  end.

Definition raw_evfail (v : variant) (p : nat) (i : Z) : list event :=
  match v with
  | CBaseline2 => [EvTemp (make_record i)]
  | _ => []
  end.

(** The build function of a vector variant. *)
Definition vec_build (v : variant) : Z → M vector :=
  match v with
  | EmplaceBack => BM_EmplaceBack_build
  | PushBack => BM_PushBack_build
  | FromRange => BM_FromRange_build
  | _ => BM_FromRangeIterators_build
  end.

(** ** The claims as predicates *)

(** Variant [v] at size [N] builds the sequence [l], from any machine. *)
Definition yields (v : variant) (N : Z) (l : list MyStruct) : Prop :=
  ∀ m, ∃ h m' evs, build v N m = Ok h m' evs ∧ collection m' h = Some l.

(** One timed loop body of a raw variant: a block of [N] slots is obtained,
    each slot is initialised exactly once, in order, before the block is
    released, all [N] slots hold a value at that point, and the body leaves
    the heap as it found it. *)
Definition raw_discipline (v : variant) (N : Z) : Prop :=
  ∀ m, fresh_from m →
    ∃ p m1 e1 m2 e2,
      build v N m = Ok (RawBlock p) m1 e1 ∧
      allocated_blocks e1 = [p] ∧
      slot_writes p e1 = seqZ 0 N ∧
      length (writes e1) = Z.to_nat N ∧
      (∃ l, heap m1 !! p = Some (Some <$> l) ∧ length l = Z.to_nat N) ∧
      body v N m = Ok tt m2 e2 ∧
      (∃ o, e2 = e1 ++ [EvFree p; o]) ∧
      heap m2 = heap m ∧ fresh_from m2.

(** ** Notions for the properties beyond the claims *)

Definition released_blocks (evs : list event) : list nat :=
  omap (λ e, match e with EvFree p => Some p | _ => None end) evs.

Definition observations (evs : list event)
  : list (option nat * option (list MyStruct)) :=
  omap (λ e, match e with EvObserve p seen => Some (p, seen) | _ => None end)
       evs.

(** The heap without the storage of [v]. *)
Definition drop_buf (v : vector) (h : gmap nat block) : gmap nat block :=
  match vbuf v with
  | Some p => delete p h
  | None => h
  end.

(** Apart from the storage of [v], machine [m] holds the heap [h0], and its
    unused block names are unused. *)
Definition held (h0 : gmap nat block) (m : machine) (v : vector) : Prop :=
  fresh_from m ∧ drop_buf v (heap m) = h0.

(** The events of a loop body after its build part, for a build that ended
    with handle [h] holding [l]: the raw variants release and then observe,
    the vector variants observe and then release. *)
Definition after_build (h : handle) (l : list MyStruct) : list event :=
  match h with
  | RawBlock p => [EvFree p; EvObserve (Some p) None]
  | Vector v =>
      EvObserve (vbuf v) (Some l) ::
      match vbuf v with
      | Some p => [EvFree p]
      | None => []
      end
  end.

(** The variants that obtain their storage once, for exactly N elements. *)
Definition is_sized (v : variant) : bool :=
  match v with
  | FromRangeIterators => false
  | _ => true
  end.

(** * Proofs *)

(** ** Conversions *)

Lemma int_of_size_t_small i : 0 ≤ i < INT_LIM → int_of_size_t i = i.
Proof.
  intros Hi. unfold int_of_size_t, UINT_MOD, INT_LIM in *.
  rewrite Z.mod_small by lia. rewrite bool_decide_eq_true_2; lia.
Qed.

Lemma int_of_size_t_INT_LIM : int_of_size_t INT_LIM = - INT_LIM.
Proof. reflexivity. Qed.

Lemma size_t_mul_sizeof N :
  0 ≤ N → sizeof_MyStruct * N < SIZE_MOD →
  size_t_mul sizeof_MyStruct N / sizeof_MyStruct = N.
Proof.
  intros H0 H. unfold size_t_mul. rewrite Z.mod_small.
  - unfold sizeof_MyStruct. rewrite Z.mul_comm. by apply Z.div_mul.
  - unfold sizeof_MyStruct in *. lia.
Qed.

(** The slots obtained once the byte count has wrapped. *)
Lemma size_t_mul_sizeof_wrapped N :
  SIZE_MOD ≤ sizeof_MyStruct * N →
  0 ≤ size_t_mul sizeof_MyStruct N / sizeof_MyStruct < N.
Proof.
  intros Hw. unfold size_t_mul, sizeof_MyStruct, SIZE_MOD in *.
  pose proof (Z.mod_pos_bound (8 * N) 18446744073709551616 eq_refl) as Hm.
  split.
  - apply Z.div_pos; lia.
  - apply Z.div_lt_upper_bound; lia.
Qed.

Lemma fits_below_INT_LIM N :
  N ≤ INT_LIM + 1 → sizeof_MyStruct * N < SIZE_MOD.
Proof. unfold INT_LIM, sizeof_MyStruct, SIZE_MOD. lia. Qed.

Lemma items_processed_exact (it N : Z) :
  0 ≤ it → 0 ≤ N → it * N < INT64_LIM →
  int64_of_size_t (size_t_mul (size_t_of_int64 it) N) = it * N.
Proof.
  intros Hit HN Hfit.
  unfold int64_of_size_t, size_t_mul, size_t_of_int64.
  rewrite Z.mul_mod_idemp_l by done.
  unfold INT64_LIM, SIZE_MOD in *.
  rewrite !(Z.mod_small (it * N)) by nia.
  rewrite bool_decide_eq_true_2; lia.
Qed.

(** ** The two sequences *)

Lemma make_record_small i :
  0 ≤ i < INT_LIM → make_record i = {| x := i; y := i |}.
Proof.
  intros Hi. unfold make_record, MyStruct_ctor.
  by rewrite int_of_size_t_small.
Qed.

Lemma length_built N : length (built N) = Z.to_nat N.
Proof. unfold built. by rewrite length_fmap, length_seqZ. Qed.

Lemma length_reference N : length (reference N) = Z.to_nat N.
Proof. unfold reference. by rewrite length_fmap, length_seqZ. Qed.

Lemma built_lookup N (i : nat) :
  Z.of_nat i < N → built N !! i = Some (make_record (Z.of_nat i)).
Proof.
  intros Hi. unfold built. rewrite list_lookup_fmap, lookup_seqZ_lt by done.
  simpl. by rewrite Z.add_0_l.
Qed.

Lemma reference_lookup N (i : nat) :
  Z.of_nat i < N →
  reference N !! i = Some {| x := Z.of_nat i; y := Z.of_nat i |}.
Proof.
  intros Hi. unfold reference.
  rewrite list_lookup_fmap, lookup_seqZ_lt by done.
  simpl. by rewrite Z.add_0_l.
Qed.

Lemma built_S (k : nat) :
  built (Z.of_nat (S k)) = built (Z.of_nat k) ++ [make_record (Z.of_nat k)].
Proof.
  unfold built. rewrite seqZ_S, fmap_app. simpl. by rewrite Z.add_0_l.
Qed.

Lemma built_reference N : N ≤ INT_LIM → built N = reference N.
Proof.
  intros HN. unfold built, reference.
  apply list_fmap_ext. intros i j Hj.
  apply lookup_seqZ in Hj as [-> Hi].
  apply make_record_small. lia.
Qed.

(** An index the conversion to [int] does not preserve separates what is
    stored from the reference sequence. *)
Lemma built_reference_differ N k :
  0 ≤ k < N → int_of_size_t k ≠ k → built N ≠ reference N.
Proof.
  intros Hk Hne Heq.
  apply (f_equal (λ l, l !! Z.to_nat k)) in Heq.
  rewrite built_lookup, reference_lookup in Heq by lia.
  rewrite Z2Nat.id in Heq by lia.
  injection Heq as Hx _. done.
Qed.

(** ** Lists of events *)

Section flat_maps.
Context {A B : Type}.

Lemma flat_map_nil (l : list A) : flat_map (λ _, @nil B) l = [].
Proof. by induction l. Qed.

Lemma flat_map_singleton (l : list A) : flat_map (λ a, [a]) l = l.
Proof. induction l as [|a l IH]; [done|]. simpl. by rewrite IH. Qed.

Lemma flat_map_fmap_singleton (f : A → B) l :
  flat_map (λ a, [f a]) l = f <$> l.
Proof. induction l as [|a l IH]; [done|]. simpl. by rewrite IH. Qed.

Lemma flat_map_pointwise (f g : A → list B) l :
  (∀ a, f a = g a) → flat_map f l = flat_map g l.
Proof.
  intros H. induction l as [|a l IH]; [done|]. simpl. by rewrite H, IH.
Qed.

Lemma length_flat_map_singleton (f : A → B) l :
  length (flat_map (λ a, [f a]) l) = length l.
Proof. induction l as [|a l IH]; [done|]. simpl. by rewrite IH. Qed.

Lemma omap_flat_map {C} (f : B → option C) (g : A → list B) l :
  omap f (flat_map g l) = flat_map (λ a, omap f (g a)) l.
Proof.
  induction l as [|a l IH]; [done|]. simpl. by rewrite omap_app, IH.
Qed.

End flat_maps.

Lemma lambda_calls_app e1 e2 :
  lambda_calls (e1 ++ e2) = lambda_calls e1 ++ lambda_calls e2.
Proof. apply omap_app. Qed.

Lemma lambda_calls_flat_map {A} (f : A → list event) (g : A → list Z) l :
  (∀ a, lambda_calls (f a) = g a) →
  lambda_calls (flat_map f l) = flat_map g l.
Proof.
  intros H. unfold lambda_calls. rewrite omap_flat_map.
  by apply flat_map_pointwise.
Qed.

(** ** The monad *)

Section monad.
Context {A B : Type}.

Lemma bind_Ok (c : M A) (k : A → M B) m a m1 e1 :
  c m = Ok a m1 e1 →
  bind c k m =
    match k a m1 with
    | Ok b m2 e2 => Ok b m2 (e1 ++ e2)
    | Fail f m2 e2 => Fail f m2 (e1 ++ e2)
    end.
Proof. intros H. unfold bind. by rewrite H. Qed.

Lemma bind_Fail (c : M A) (k : A → M B) m f m1 e1 :
  c m = Fail f m1 e1 → bind c k m = Fail f m1 e1.
Proof. intros H. unfold bind. by rewrite H. Qed.

Lemma bind_ext (c : M A) (k1 k2 : A → M B) m :
  (∀ a m', k1 a m' = k2 a m') → bind c k1 m = bind c k2 m.
Proof.
  intros H. unfold bind. destruct (c m); [|done]. by rewrite H.
Qed.

Lemma bind_assoc {C} (c : M A) (k : A → M B) (k' : B → M C) m :
  bind (bind c k) k' m = bind c (λ a, bind (k a) k') m.
Proof.
  unfold bind. destruct (c m) as [a m1 e1|]; [|done].
  destruct (k a m1) as [b m2 e2|]; [|done].
  destruct (k' b m2); by rewrite app_assoc.
Qed.

Lemma bind_ret_l (a : A) (k : A → M B) m : bind (ret a) k m = k a m.
Proof. unfold bind, ret. by destruct (k a m). Qed.

Lemma bind_ret_r (c : M A) m : bind c ret m = c m.
Proof. unfold bind, ret. destruct (c m); simpl; by rewrite ?app_nil_r. Qed.

(** A property of every event passes through [bind]. *)
Lemma bind_events (P : event → Prop) (c : M A) (k : A → M B) m :
  Forall P (events (c m)) →
  (∀ a m', Forall P (events (k a m'))) →
  Forall P (events (bind c k m)).
Proof.
  intros Hc Hk. unfold bind.
  destruct (c m) as [a m1 e1|]; [|done].
  specialize (Hk a m1). simpl in Hc.
  destruct (k a m1); simpl in *; by apply Forall_app.
Qed.

End monad.

(** Run the first computation of a [bind] with its known result [H]. *)
Tactic Notation "run" uconstr(H) := rewrite (bind_Ok _ _ _ _ _ _ H).
Tactic Notation "run" uconstr(H) "in" hyp(H') :=
  rewrite (bind_Ok _ _ _ _ _ _ H) in H'.

(** ** Loops *)

Section loops.
Context {St : Type} (body : Z → St → M St).

Lemma for_loop_app (a b : nat) i s m :
  for_loop (a + b) i body s m =
  bind (for_loop a i body s) (λ s', for_loop b (i + Z.of_nat a) body s') m.
Proof.
  revert i s m. induction a as [|a IH]; intros i s m.
  - simpl. by rewrite bind_ret_l, Z.add_0_r.
  - change (for_loop (S a + b) i body s m)
      with (bind (body i s) (λ s1, for_loop (a + b) (i + 1) body s1) m).
    rewrite (bind_ext _ _
      (λ s1, bind (for_loop a (i + 1) body s1)
                  (λ s', for_loop b (i + 1 + Z.of_nat a) body s')))
      by (intros; apply IH).
    rewrite <- bind_assoc.
    replace (i + Z.of_nat (S a)) with (i + 1 + Z.of_nat a) by lia.
    done.
Qed.

Lemma for_loop_snoc (k : nat) i s m :
  for_loop (S k) i body s m =
  bind (for_loop k i body s) (λ s', body (i + Z.of_nat k) s') m.
Proof.
  rewrite <- Nat.add_1_r, for_loop_app. apply bind_ext.
  intros s' m'. simpl. apply bind_ret_r.
Qed.

(** The invariant rule: [I k s m evs] relates the loop state, the machine
    and the events emitted so far after [k] iterations. *)
Lemma for_loop_ok (I : nat → St → machine → list event → Prop)
    (cnt : nat) (i0 : Z) (s : St) (m : machine) :
  I 0%nat s m [] →
  (∀ (k : nat) s m evs, (k < cnt)%nat → I k s m evs →
     ∃ s' m' e, body (i0 + Z.of_nat k) s m = Ok s' m' e ∧
                I (S k) s' m' (evs ++ e)) →
  ∃ s' m' evs, for_loop cnt i0 body s m = Ok s' m' evs ∧ I cnt s' m' evs.
Proof.
  intros H0 Hstep.
  assert (∀ k, (k ≤ cnt)%nat →
    ∃ s' m' evs, for_loop k i0 body s m = Ok s' m' evs ∧ I k s' m' evs) as H.
  { induction k as [|k IH]; intros Hk.
    - by exists s, m, [].
    - destruct IH as (s1 & m1 & e1 & Hrun & HI); [lia|].
      destruct (Hstep k s1 m1 e1) as (s2 & m2 & e2 & Hb & HI2); [lia|done|].
      exists s2, m2, (e1 ++ e2). split; [|done].
      rewrite for_loop_snoc. run Hrun. by rewrite Hb. }
  by apply H.
Qed.

(** A loop whose body fails after [a] good iterations fails there. *)
Lemma for_loop_fail_at (a b : nat) i s m s1 m1 e1 f m2 e2 :
  for_loop a i body s m = Ok s1 m1 e1 →
  body (i + Z.of_nat a) s1 m1 = Fail f m2 e2 →
  for_loop (a + S b) i body s m = Fail f m2 (e1 ++ e2).
Proof.
  intros Ha Hb. rewrite for_loop_app. run Ha.
  simpl. by rewrite (bind_Fail _ _ _ _ _ _ Hb).
Qed.

(** A property of every event the body emits holds of every event of the
    loop, however it ends. *)
Lemma for_loop_events (P : event → Prop) cnt :
  (∀ i s m, Forall P (events (body i s m))) →
  ∀ i s m, Forall P (events (for_loop cnt i body s m)).
Proof.
  intros Hb. induction cnt as [|cnt IH]; intros i s m.
  - by apply Forall_nil.
  - simpl. apply bind_events; [apply Hb|]. intros. apply IH.
Qed.

End loops.

(** ** Writing into a block *)

Lemma write_slot_silent p i v m : events (write_slot p i v m) = [].
Proof.
  unfold write_slot. destruct (heap m !! p); [|done]. by case_bool_decide.
Qed.

Lemma write_slot_lookup p i val m blk :
  heap m !! p = Some blk → 0 ≤ i < Z.of_nat (length blk) →
  write_slot p i val m =
    Ok tt {| heap := <[p := <[Z.to_nat i := Some val]> blk]> (heap m);
             next := next m |} [].
Proof.
  intros Hp Hi. unfold write_slot.
  by rewrite Hp, bool_decide_eq_true_2.
Qed.

Lemma write_slot_insert p i v blk h nx :
  0 ≤ i < Z.of_nat (length blk) →
  write_slot p i v {| heap := <[p := blk]> h; next := nx |} =
    Ok tt {| heap := <[p := <[Z.to_nat i := Some v]> blk]> h; next := nx |} [].
Proof.
  intros Hi. erewrite write_slot_lookup; [|apply lookup_insert_eq|done].
  simpl. by rewrite insert_insert_eq.
Qed.

Lemma write_slot_beyond p i v blk h nx :
  Z.of_nat (length blk) ≤ i →
  write_slot p i v {| heap := <[p := blk]> h; next := nx |} =
    Fail out_of_bounds {| heap := <[p := blk]> h; next := nx |} [].
Proof.
  intros Hi. unfold write_slot. simpl.
  rewrite lookup_insert_eq, bool_decide_eq_false_2; [done|lia].
Qed.

Lemma insert_next_slot (l : list MyStruct) (a : MyStruct) (n : nat) :
  (length l < n)%nat →
  <[length l := Some a]> ((Some <$> l) ++ replicate (n - length l) None) =
  (Some <$> (l ++ [a])) ++ replicate (n - S (length l)) None.
Proof.
  intros Hn.
  replace (n - length l)%nat with (S (n - S (length l))) by lia.
  rewrite insert_app_r_alt by (rewrite length_fmap; lia).
  rewrite length_fmap, Nat.sub_diag. simpl.
  by rewrite fmap_app, <- app_assoc.
Qed.

(** A loop that initialises slot [i] of block [p] with the [i]-th element of
    [vals] turns an uninitialised block into one that starts with [vals]. *)
Lemma write_loop (step : Z → unit → M unit) (p : nat) (h : gmap nat block)
    (nx : nat) (evf : Z → list event) (n : nat) (vals : list MyStruct) :
  (∀ (i : nat) val blk, vals !! i = Some val → (i < length blk)%nat →
     step (Z.of_nat i) tt {| heap := <[p := blk]> h; next := nx |} =
       Ok tt {| heap := <[p := <[i := Some val]> blk]> h; next := nx |}
          (evf (Z.of_nat i))) →
  (length vals ≤ n)%nat →
  for_loop (length vals) 0 step tt
      {| heap := <[p := replicate n None]> h; next := nx |} =
    Ok tt {| heap := <[p := (Some <$> vals) ++
                            replicate (n - length vals) None]> h;
             next := nx |}
       (flat_map evf (seqZ 0 (Z.of_nat (length vals)))).
Proof.
  induction vals as [|a vals IH] using rev_ind; intros Hstep Hlen.
  - simpl. by rewrite Nat.sub_0_r.
  - rewrite length_app in *. simpl in *.
    rewrite Nat.add_1_r in *.
    rewrite for_loop_snoc.
    run (IH (λ i val blk Hv, Hstep i val blk (lookup_app_l_Some _ _ _ _ Hv))
            ltac:(lia)).
    rewrite Z.add_0_l, (Hstep (length vals) a).
    + rewrite insert_next_slot by lia.
      rewrite seqZ_S, flat_map_app. simpl.
      by rewrite app_nil_r, Z.add_0_l.
    + by rewrite lookup_app_r, Nat.sub_diag.
    + rewrite length_app, length_fmap, length_replicate. lia.
Qed.

(** ** Raw fill steps *)

Lemma raw_step_ok (v : variant) :
  raw_step_spec (raw_step v) (raw_evok v) (raw_evfail v).
Proof.
  intros p i m.
  pose proof (write_slot_silent p i (make_record i) m) as Hev.
  destruct v; unfold raw_step, raw_evok, raw_evfail, construct_at,
    placement_new, materialize, assign, static_cast_int, bind, emit, ret;
    fold (make_record i); simpl;
    destruct (write_slot p i (make_record i) m); simpl in Hev; by subst.
Qed.

Section raw_steps.
Variable step : nat → Z → M unit.
Variables evok evfail : nat → Z → list event.
Hypothesis Hspec : raw_step_spec step evok evfail.

Lemma raw_step_insert p (i : nat) blk h nx :
  (i < length blk)%nat →
  step p (Z.of_nat i) {| heap := <[p := blk]> h; next := nx |} =
    Ok tt {| heap := <[p := <[i := Some (make_record (Z.of_nat i))]> blk]> h;
             next := nx |} (evok p (Z.of_nat i)).
Proof.
  intros Hi. rewrite Hspec, write_slot_insert by lia. by rewrite Nat2Z.id.
Qed.

(** Filling the first [k] slots of a fresh block of [n >= k] slots. *)
Lemma raw_fill p h nx (n k : nat) :
  (k ≤ n)%nat →
  for_loop k 0 (λ i _, step p i) tt
      {| heap := <[p := replicate n None]> h; next := nx |} =
    Ok tt {| heap := <[p := (Some <$> built (Z.of_nat k)) ++
                            replicate (n - k) None]> h;
             next := nx |}
       (flat_map (evok p) (seqZ 0 (Z.of_nat k))).
Proof.
  intros Hk.
  pose proof (write_loop (λ i _, step p i) p h nx (evok p) n
                (built (Z.of_nat k))) as H.
  rewrite length_built, Nat2Z.id in H. apply H; [|done].
  intros i val blk Hv Hi.
  assert (Z.of_nat i < Z.of_nat k) as Hik.
  { apply lookup_lt_Some in Hv. rewrite length_built in Hv. lia. }
  rewrite built_lookup in Hv by done. injection Hv as <-.
  by apply raw_step_insert.
Qed.

Lemma raw_build_ok N m :
  0 ≤ N → sizeof_MyStruct * N < SIZE_MOD →
  raw_build step N m =
    Ok (next m)
       {| heap := <[next m := Some <$> built N]> (heap m);
          next := S (next m) |}
       (EvAlloc (next m) N :: flat_map (evok (next m)) (seqZ 0 N)).
Proof.
  intros H0 Hfit. unfold raw_build, new_byte_array, for_size_t.
  rewrite size_t_mul_sizeof by done.
  run (eq_refl : allocate N m = Ok _ _ _).
  run (raw_fill (next m) (heap m) (S (next m)) (Z.to_nat N) (Z.to_nat N)
         (le_n _)).
  unfold ret. rewrite Z2Nat.id, Nat.sub_diag by done. simpl.
  by rewrite !app_nil_r.
Qed.

(** Once the byte count has wrapped, the block is too short: the loop fills
    it and then writes past its end. *)
Lemma raw_build_overflow N m :
  SIZE_MOD ≤ sizeof_MyStruct * N →
  raw_build step N m =
    Fail out_of_bounds
      {| heap := <[next m := Some <$> built
                     (size_t_mul sizeof_MyStruct N / sizeof_MyStruct)]>
                   (heap m);
         next := S (next m) |}
      (EvAlloc (next m) (size_t_mul sizeof_MyStruct N / sizeof_MyStruct) ::
         flat_map (evok (next m))
           (seqZ 0 (size_t_mul sizeof_MyStruct N / sizeof_MyStruct)) ++
         evfail (next m) (size_t_mul sizeof_MyStruct N / sizeof_MyStruct)).
Proof.
  intros Hw. unfold raw_build, new_byte_array, for_size_t.
  pose proof (size_t_mul_sizeof_wrapped N Hw) as Hn.
  set (n := size_t_mul sizeof_MyStruct N / sizeof_MyStruct) in *.
  run (eq_refl : allocate n m = Ok _ _ _).
  replace (Z.to_nat N)
    with (Z.to_nat n + S (Z.to_nat N - Z.to_nat n - 1))%nat by lia.
  pose proof (raw_fill (next m) (heap m) (S (next m)) (Z.to_nat n)
                (Z.to_nat n) (le_n _)) as Hfill.
  rewrite Z2Nat.id, Nat.sub_diag, app_nil_r in Hfill by lia.
  erewrite bind_Fail; [simpl; done|].
  eapply for_loop_fail_at; [exact Hfill|].
  rewrite Z2Nat.id, Z.add_0_l by lia.
  rewrite Hspec, write_slot_beyond; [done|].
  rewrite length_fmap, length_built. lia.
Qed.

(** A property of the events of the step holds of every event of the
    build, however it ends. *)
Lemma raw_build_events (P : event → Prop) N m :
  (∀ p n, P (EvAlloc p n)) →
  (∀ p i, Forall P (evok p i)) → (∀ p i, Forall P (evfail p i)) →
  Forall P (events (raw_build step N m)).
Proof.
  intros Ha Hok Hfail. unfold raw_build.
  apply bind_events.
  { by apply Forall_singleton. }
  intros p m1. apply bind_events; [|intros; by apply Forall_nil].
  apply for_loop_events. intros i [] m2. rewrite Hspec.
  destruct (write_slot p i (make_record i) m2); simpl; auto.
Qed.

End raw_steps.

(** Two fill steps that differ only in their events drive the machine the
    same way. *)
Lemma raw_loop_without_events step1 ok1 fail1 step2 ok2 fail2 p cnt :
  raw_step_spec step1 ok1 fail1 → raw_step_spec step2 ok2 fail2 →
  ∀ i m,
    without_events (for_loop cnt i (λ i _, step1 p i) tt m) =
    without_events (for_loop cnt i (λ i _, step2 p i) tt m).
Proof.
  intros H1 H2. induction cnt as [|cnt IH]; intros i m; [done|].
  simpl. unfold bind. rewrite H1, H2.
  destruct (write_slot p i (make_record i) m) as [[] m1 e1|]; [|done].
  specialize (IH (i + 1) m1).
  destruct (for_loop cnt (i + 1) (λ i _, step1 p i) tt m1),
           (for_loop cnt (i + 1) (λ i _, step2 p i) tt m1);
    simpl in *; congruence.
Qed.

Lemma raw_build_without_events step1 ok1 fail1 step2 ok2 fail2 N m :
  raw_step_spec step1 ok1 fail1 → raw_step_spec step2 ok2 fail2 →
  without_events (raw_build step1 N m) = without_events (raw_build step2 N m).
Proof.
  intros H1 H2. unfold raw_build, for_size_t, new_byte_array.
  rewrite !(bind_Ok _ _ _ _ _ _ (eq_refl : allocate _ m = Ok _ _ _)).
  unfold bind, ret.
  pose proof (raw_loop_without_events step1 ok1 fail1 step2 ok2 fail2
    (next m) (Z.to_nat N) H1 H2 0
    {| heap := <[next m := replicate
                  (Z.to_nat (size_t_mul sizeof_MyStruct N / sizeof_MyStruct))
                  None]> (heap m);
       next := S (next m) |}) as H.
  destruct (for_loop _ _ (λ i _, step1 _ i) _ _),
           (for_loop _ _ (λ i _, step2 _ i) _ _);
    simpl in *; congruence.
Qed.

(** ** The raw variants *)

Lemma build_raw (v : variant) (N : Z) m :
  is_raw v = true →
  build v N m = lift_raw (raw_build (raw_step v) N) m.
Proof. by destruct v. Qed.

Lemma body_raw (v : variant) (N : Z) m :
  is_raw v = true →
  body v N m =
    bind (raw_build (raw_step v) N)
         (λ vec, delete_array vec ;; DoNotOptimize (RawBlock vec)) m.
Proof. by destruct v. Qed.

Lemma collection_raw_full h nx p (l : list MyStruct) :
  collection {| heap := <[p := Some <$> l]> h; next := nx |} (RawBlock p) =
    Some l.
Proof.
  unfold collection. simpl. rewrite lookup_insert_eq. simpl.
  by apply mapM_fmap_Some.
Qed.

Lemma build_raw_ok (v : variant) N m :
  is_raw v = true → 0 ≤ N → sizeof_MyStruct * N < SIZE_MOD →
  build v N m =
    Ok (RawBlock (next m))
       {| heap := <[next m := Some <$> built N]> (heap m);
          next := S (next m) |}
       (EvAlloc (next m) N :: flat_map (raw_evok v (next m)) (seqZ 0 N)).
Proof.
  intros Hv H0 Hfit. rewrite build_raw by done. unfold lift_raw.
  run (raw_build_ok _ _ _ (raw_step_ok v) N m H0 Hfit).
  unfold ret. by rewrite app_nil_r.
Qed.

Lemma build_raw_overflow (v : variant) N m :
  is_raw v = true → SIZE_MOD ≤ sizeof_MyStruct * N →
  ∃ m' evs, build v N m = Fail out_of_bounds m' evs.
Proof.
  intros Hv Hw. rewrite build_raw by done. unfold lift_raw.
  erewrite bind_Fail; [by eauto|].
  by apply (raw_build_overflow _ _ _ (raw_step_ok v)).
Qed.

Lemma body_raw_ok (v : variant) N m :
  is_raw v = true → 0 ≤ N → sizeof_MyStruct * N < SIZE_MOD →
  body v N m =
    Ok tt {| heap := delete (next m) (heap m); next := S (next m) |}
       ((EvAlloc (next m) N :: flat_map (raw_evok v (next m)) (seqZ 0 N)) ++
        [EvFree (next m); EvObserve (Some (next m)) None]).
Proof.
  intros Hv H0 Hfit. rewrite body_raw by done.
  run (raw_build_ok _ _ _ (raw_step_ok v) N m H0 Hfit).
  unfold bind, delete_array, DoNotOptimize, collection. simpl.
  rewrite lookup_insert_eq. simpl.
  by rewrite delete_insert_eq, lookup_delete_eq.
Qed.

Lemma outcome_lift_raw (c1 c2 : M nat) m :
  without_events (c1 m) = without_events (c2 m) →
  outcome (lift_raw c1 m) = outcome (lift_raw c2 m).
Proof.
  intros H. unfold lift_raw, bind, ret.
  destruct (c1 m), (c2 m); simpl in *; congruence.
Qed.

(** What the events of a successful raw build say. *)

Lemma writes_raw_evok (v : variant) p l :
  writes (flat_map (raw_evok v p) l) =
    flat_map (λ i, [(p, i, make_record i)]) l.
Proof.
  unfold writes. rewrite omap_flat_map. apply flat_map_pointwise.
  intros i. by destruct v.
Qed.

Lemma slot_writes_raw_evok (v : variant) p l :
  slot_writes p (flat_map (raw_evok v p) l) = l.
Proof.
  unfold slot_writes. rewrite writes_raw_evok, omap_flat_map.
  rewrite <- (flat_map_singleton l) at 2. apply flat_map_pointwise.
  intros i. simpl. by rewrite bool_decide_eq_true_2.
Qed.

Lemma allocated_raw_evok (v : variant) p l :
  allocated_blocks (flat_map (raw_evok v p) l) = [].
Proof.
  unfold allocated_blocks. rewrite omap_flat_map.
  rewrite <- (flat_map_nil (B := nat) l). apply flat_map_pointwise.
  intros i. by destruct v.
Qed.

(** Freshness of block names, kept by a raw loop body. *)

Lemma fresh_from_initial : fresh_from initial_machine.
Proof. intros q _. apply lookup_empty. Qed.

Lemma fresh_from_after_raw m :
  fresh_from m →
  fresh_from {| heap := delete (next m) (heap m); next := S (next m) |}.
Proof.
  intros Hf q Hq. simpl in *.
  rewrite lookup_delete_ne by lia. apply Hf. lia.
Qed.

(** ** std::vector *)

Lemma vec_rep_default m : vec_rep m vector_default [].
Proof. by unfold vec_rep. Qed.

Lemma since_default m : since (next m) vector_default m.
Proof. split; [done|]. by intros p. Qed.

Lemma collection_vec_rep m v l :
  vec_rep m v l → collection m (Vector v) = Some l.
Proof.
  intros (Hsz & Hcap & Hbuf). unfold collection.
  destruct (vbuf v) as [p|].
  - destruct Hbuf as [_ ->]. simpl.
    rewrite Hsz, Nat2Z.id, take_app_length' by by rewrite length_fmap.
    by apply mapM_fmap_Some.
  - rewrite bool_decide_eq_true_2 by lia.
    destruct l; [done|]. simpl in Hsz. lia.
Qed.

Lemma copy_construct_spec obj :
  ctor_spec (λ p i, copy_construct p i obj) obj (λ p i, [EvCopy p i obj]).
Proof.
  intros p i m. pose proof (write_slot_silent p i obj m) as Hev.
  unfold copy_construct, bind, emit.
  destruct (write_slot p i obj m); simpl in Hev; by subst.
Qed.

Lemma construct_at_spec a b :
  ctor_spec (λ p i, construct_at p i a b) (MyStruct_ctor a b)
    (λ p i, [EvConstruct p i (MyStruct_ctor a b)]).
Proof.
  intros p i m.
  pose proof (write_slot_silent p i (MyStruct_ctor a b) m) as Hev.
  unfold construct_at, placement_new, bind, emit.
  destruct (write_slot p i (MyStruct_ctor a b) m); simpl in Hev; by subst.
Qed.

Lemma move_elements_spec (p p' : nat) (l : list MyStruct) (n : nat)
    (rest : block) h nx :
  p ≠ p' → (length l ≤ n)%nat →
  h !! p = Some ((Some <$> l) ++ rest) →
  ∃ evs,
    move_elements p p' (Z.of_nat (length l))
        {| heap := <[p' := replicate n None]> h; next := nx |} =
      Ok tt {| heap := <[p' := (Some <$> l) ++
                                 replicate (n - length l) None]> h;
               next := nx |} evs ∧
    lambda_calls evs = [].
Proof.
  intros Hne Hlen Hp.
  set (evf := λ i : Z, match l !! Z.to_nat i with
                       | Some val => [EvCopy p' i val]
                       | None => []
                       end).
  exists (flat_map evf (seqZ 0 (Z.of_nat (length l)))). split.
  - unfold move_elements, for_size_t. rewrite Nat2Z.id.
    apply write_loop; [|done].
    intros i val blk Hv Hi.
    assert (read_slot p (Z.of_nat i)
              {| heap := <[p' := blk]> h; next := nx |} =
            Ok val {| heap := <[p' := blk]> h; next := nx |} []) as Hread.
    { unfold read_slot. simpl.
      rewrite lookup_insert_ne, Hp, Nat2Z.id by done.
      rewrite (lookup_app_l_Some _ _ _ (Some val)); [done|].
      by rewrite list_lookup_fmap, Hv. }
    run Hread.
    rewrite copy_construct_spec, write_slot_insert by lia.
    unfold evf. by rewrite Nat2Z.id, Hv.
  - erewrite lambda_calls_flat_map; [apply flat_map_nil|].
    intros i. unfold evf. by destruct (l !! Z.to_nat i).
Qed.

Lemma reallocate_spec n v m l :
  vec_rep m v l → Z.of_nat (length l) ≤ n →
  ∃ m' evs,
    reallocate n v m =
      Ok {| vbuf := Some (next m); vsize := vsize v; vcap := n |} m' evs ∧
    vec_rep m' {| vbuf := Some (next m); vsize := vsize v; vcap := n |} l ∧
    lambda_calls evs = [] ∧
    next m' = S (next m).
Proof.
  intros (Hsz & Hcap & Hbuf) Hn. unfold reallocate.
  run (eq_refl : allocate n m = Ok _ _ _).
  destruct (vbuf v) as [p|].
  - destruct Hbuf as [Hlt Hblk].
    destruct (move_elements_spec p (next m) l (Z.to_nat n) _ (heap m)
                (S (next m)) ltac:(lia) ltac:(lia) Hblk)
      as (evs & Hmove & Hcalls).
    rewrite <- Hsz in Hmove.
    eexists _, _. split; [|split; [|split]].
    + rewrite bind_assoc. run Hmove.
      unfold bind, delete_array, ret. simpl.
      rewrite lookup_insert_ne, Hblk by lia. simpl. done.
    + unfold vec_rep. simpl. split; [done|]. split; [lia|].
      split; [lia|].
      by rewrite lookup_delete_ne, lookup_insert_eq by lia.
    + simpl. rewrite !lambda_calls_app, Hcalls. done.
    + done.
  - assert (l = []) as -> by (destruct l; [done|simpl in *; lia]).
    eexists _, _. split; [|split; [|split]].
    + unfold bind, ret. simpl. done.
    + unfold vec_rep. simpl. split; [done|]. split; [lia|].
      split; [lia|]. by rewrite lookup_insert_eq, Nat.sub_0_r.
    + done.
    + done.
Qed.

Lemma reserve_spec n v m l :
  vec_rep m v l →
  ∃ v' m' evs,
    reserve n v m = Ok v' m' evs ∧ vec_rep m' v' l ∧ n ≤ vcap v' ∧
    lambda_calls evs = [] ∧
    ∀ n0, since n0 v m → since n0 v' m'.
Proof.
  intros Hrep. unfold reserve. case_bool_decide as Hlt.
  - destruct (reallocate_spec n v m l Hrep)
      as (m' & evs & Hr & Hrep' & Hc & Hnext).
    { destruct Hrep as (? & ? & _). lia. }
    eexists _, m', evs. split; [exact Hr|]. split; [exact Hrep'|].
    split; [simpl; lia|]. split; [done|].
    intros n0 [Hle _]. split; [lia|]. simpl. intros p [= <-]. done.
  - exists v, m, []. split; [done|]. split; [done|]. split; [lia|done].
Qed.

Section constructors.
Variable ctor : nat → Z → M unit.
Variable val : MyStruct.
Variable evc : nat → Z → list event.
Hypothesis Hctor : ctor_spec ctor val evc.
Hypothesis Hsilent : ∀ p i, lambda_calls (evc p i) = [].

Lemma construct_next_spec m v l :
  vec_rep m v l → vsize v < vcap v →
  ∃ p m',
    vbuf v = Some p ∧
    construct_next ctor v m =
      Ok {| vbuf := vbuf v; vsize := vsize v + 1; vcap := vcap v |} m'
         (evc p (vsize v)) ∧
    vec_rep m' {| vbuf := vbuf v; vsize := vsize v + 1; vcap := vcap v |}
            (l ++ [val]) ∧
    next m' = next m.
Proof.
  intros (Hsz & Hcap & Hbuf) Hroom. unfold construct_next.
  destruct (vbuf v) as [p|] eqn:Hp; [|lia].
  destruct Hbuf as [Hlt Hblk].
  eexists p, _. split; [done|].
  assert (length l < Z.to_nat (vcap v))%nat as Hl by lia.
  split; [|split].
  - unfold bind. rewrite Hctor.
    erewrite write_slot_lookup; [|exact Hblk|].
    + unfold ret. by rewrite app_nil_r.
    + rewrite length_app, length_fmap, length_replicate. lia.
  - unfold vec_rep. simpl. rewrite length_app. simpl.
    split; [lia|]. split; [lia|]. split; [done|].
    rewrite lookup_insert_eq, Hsz, Nat2Z.id, insert_next_slot by done.
    by rewrite Nat.add_1_r.
  - done.
Qed.

Lemma append_spec m v l :
  vec_rep m v l →
  ∃ v' m' evs,
    append ctor v m = Ok v' m' evs ∧ vec_rep m' v' (l ++ [val]) ∧
    lambda_calls evs = [] ∧
    ∀ n0, since n0 v m → since n0 v' m'.
Proof.
  intros Hrep. unfold append. case_bool_decide as Hroom.
  - destruct (construct_next_spec m v l Hrep Hroom)
      as (p & m' & Hp & Hrun & Hrep' & Hnext).
    eexists _, m', _. split; [|split; [exact Hrep'|split]].
    + rewrite bind_ret_l. exact Hrun.
    + apply Hsilent.
    + intros n0 [Hle Hb]. split; [lia|exact Hb].
  - destruct (reallocate_spec (grown_capacity v) v m l Hrep)
      as (m1 & e1 & Hr & Hrep1 & Hc1 & Hnext1).
    { destruct Hrep as (? & ? & _). unfold grown_capacity. lia. }
    destruct (construct_next_spec m1 _ l Hrep1)
      as (p & m' & Hp & Hrun & Hrep' & Hnext).
    { simpl. unfold grown_capacity. lia. }
    eexists _, m', _. split; [|split; [exact Hrep'|split]].
    + run Hr. rewrite Hrun. done.
    + by rewrite lambda_calls_app, Hc1, Hsilent.
    + intros n0 [Hle _]. split; [lia|]. simpl. intros q [= <-]. done.
Qed.

End constructors.

(** A loop that appends [make_record k] in iteration [k] builds [built]. *)
Lemma vector_loop (step : Z → vector → M vector)
    (Q : vector → machine → Prop)
    (calls : Z → list Z) (cnt : nat) v0 m0 :
  vec_rep m0 v0 [] → Q v0 m0 →
  (∀ (k : nat) v m, (k < cnt)%nat →
     vec_rep m v (built (Z.of_nat k)) → Q v m →
     ∃ v' m' e,
       step (Z.of_nat k) v m = Ok v' m' e ∧
       vec_rep m' v' (built (Z.of_nat k) ++ [make_record (Z.of_nat k)]) ∧
       Q v' m' ∧ lambda_calls e = calls (Z.of_nat k)) →
  ∃ v' m' evs,
    for_loop cnt 0 step v0 m0 = Ok v' m' evs ∧
    vec_rep m' v' (built (Z.of_nat cnt)) ∧ Q v' m' ∧
    lambda_calls evs = flat_map calls (seqZ 0 (Z.of_nat cnt)).
Proof.
  intros H0 HQ Hstep.
  apply (for_loop_ok step (λ k v m evs,
    vec_rep m v (built (Z.of_nat k)) ∧ Q v m ∧
    lambda_calls evs = flat_map calls (seqZ 0 (Z.of_nat k)))).
  - done.
  - intros k v m evs Hk (Hrep & HQv & Hcalls).
    destruct (Hstep k v m Hk Hrep HQv)
      as (v' & m' & e & Hrun & Hrep' & HQ' & He).
    exists v', m', e. rewrite Z.add_0_l. split; [done|].
    rewrite built_S, seqZ_S, flat_map_app, lambda_calls_app, Hcalls, He.
    simpl. by rewrite app_nil_r, Z.add_0_l.
Qed.

(** ** The vector variants *)

Lemma BM_EmplaceBack_build_ok N m :
  0 ≤ N →
  ∃ vec m' evs,
    BM_EmplaceBack_build N m = Ok vec m' evs ∧ vec_rep m' vec (built N) ∧
    since (next m) vec m'.
Proof.
  intros HN. unfold BM_EmplaceBack_build, for_size_t.
  destruct (reserve_spec N vector_default m [] (vec_rep_default m))
    as (v1 & m1 & e1 & Hres & Hrep1 & _ & _ & Hs1).
  destruct (vector_loop
    (λ i vec, emplace_back (int_of_size_t i) (int_of_size_t i) vec)
    (since (next m)) (λ _, []) (Z.to_nat N) v1 m1 Hrep1
    (Hs1 _ (since_default m)))
    as (v2 & m2 & e2 & Hloop & Hrep2 & Hs2 & _).
  { intros k v m' _ Hrep Hs.
    destruct (append_spec _ _ _
                (construct_at_spec (int_of_size_t (Z.of_nat k))
                                   (int_of_size_t (Z.of_nat k)))
                (λ _ _, eq_refl) m' v _ Hrep)
      as (v' & m'' & e & Hrun & Hrep' & He & Hs').
    exists v', m'', e. auto. }
  exists v2, m2, (e1 ++ e2). rewrite Z2Nat.id in Hrep2 by done.
  split; [|done]. run Hres. by rewrite Hloop.
Qed.

Lemma BM_PushBack_build_ok N m :
  0 ≤ N →
  ∃ vec m' evs,
    BM_PushBack_build N m = Ok vec m' evs ∧ vec_rep m' vec (built N) ∧
    since (next m) vec m'.
Proof.
  intros HN. unfold BM_PushBack_build, for_size_t.
  destruct (reserve_spec N vector_default m [] (vec_rep_default m))
    as (v1 & m1 & e1 & Hres & Hrep1 & _ & _ & Hs1).
  destruct (vector_loop
    (λ i vec, obj <- materialize (int_of_size_t i) (int_of_size_t i) ;;
              push_back obj vec)
    (since (next m)) (λ _, []) (Z.to_nat N) v1 m1 Hrep1
    (Hs1 _ (since_default m)))
    as (v2 & m2 & e2 & Hloop & Hrep2 & Hs2 & _).
  { intros k v m' _ Hrep Hs.
    destruct (append_spec _ _ _
                (copy_construct_spec (make_record (Z.of_nat k)))
                (λ _ _, eq_refl) m' v _ Hrep)
      as (v' & m'' & e & Hrun & Hrep' & He & Hs').
    exists v', m'', (EvTemp (make_record (Z.of_nat k)) :: e).
    split; [|auto].
    run (eq_refl : materialize _ _ m' = Ok (make_record (Z.of_nat k)) m' _).
    unfold push_back. by rewrite Hrun. }
  exists v2, m2, (e1 ++ e2). rewrite Z2Nat.id in Hrep2 by done.
  split; [|done]. run Hres. by rewrite Hloop.
Qed.

Lemma BM_FromRange_build_ok N m :
  0 ≤ N →
  ∃ vec m' evs,
    BM_FromRange_build N m = Ok vec m' evs ∧ vec_rep m' vec (built N) ∧
    since (next m) vec m' ∧
    lambda_calls evs = seqZ 0 N.
Proof.
  intros HN. unfold BM_FromRange_build, vector_from_range. simpl.
  rewrite Z.sub_0_r.
  destruct (reserve_spec N vector_default m [] (vec_rep_default m))
    as (v1 & m1 & e1 & Hres & Hrep1 & Hcap1 & Hc1 & Hs1).
  destruct (vector_loop
    (λ pos v, obj <- deref make_record pos ;;
              construct_next (λ p i, copy_construct p i obj) v)
    (λ v m', N ≤ vcap v ∧ since (next m) v m') (λ k, [k]) (Z.to_nat N)
    v1 m1 Hrep1 (conj Hcap1 (Hs1 _ (since_default m))))
    as (v2 & m2 & e2 & Hloop & Hrep2 & [_ Hs2] & Hc2).
  { intros k v m' Hk Hrep [Hcap [Hle Hb]].
    destruct (construct_next_spec _ _ _
                (copy_construct_spec (make_record (Z.of_nat k))) m' v _ Hrep)
      as (p & m'' & Hp & Hrun & Hrep' & Hnext).
    { destruct Hrep as (Hsz & _). rewrite length_built in Hsz. lia. }
    eexists _, m'', (EvLambda (Z.of_nat k) :: _).
    split; [|split; [exact Hrep'|split]].
    - run (eq_refl : deref make_record _ m' = Ok _ m' _).
      by rewrite Hrun.
    - split; [done|]. split; [lia|exact Hb].
    - done. }
  exists v2, m2, (e1 ++ e2). rewrite Z2Nat.id in Hrep2, Hc2 by done.
  split; [|split; [done|split; [done|]]].
  - run Hres. by rewrite Hloop.
  - by rewrite lambda_calls_app, Hc1, Hc2, flat_map_singleton.
Qed.

Lemma BM_FromRangeIterators_build_ok N m :
  0 ≤ N →
  ∃ vec m' evs,
    BM_FromRangeIterators_build N m = Ok vec m' evs ∧
    vec_rep m' vec (built N) ∧
    since (next m) vec m' ∧
    lambda_calls evs = seqZ 0 N.
Proof.
  intros HN. unfold BM_FromRangeIterators_build, vector_from_iterators.
  simpl. rewrite Z.sub_0_r.
  destruct (vector_loop
    (λ pos v, obj <- deref make_record pos ;; push_back obj v)
    (since (next m)) (λ k, [k]) (Z.to_nat N) vector_default m
    (vec_rep_default m) (since_default m))
    as (v2 & m2 & e2 & Hloop & Hrep2 & Hs2 & Hc2).
  { intros k v m' _ Hrep Hs.
    destruct (append_spec _ _ _
                (copy_construct_spec (make_record (Z.of_nat k)))
                (λ _ _, eq_refl) m' v _ Hrep)
      as (v' & m'' & e & Hrun & Hrep' & He & Hs').
    exists v', m'', (EvLambda (Z.of_nat k) :: e).
    split; [|split; [exact Hrep'|split; [auto|]]].
    - run (eq_refl : deref make_record _ m' = Ok _ m' _).
      unfold push_back. by rewrite Hrun.
    - simpl. by rewrite He. }
  exists v2, m2, e2. rewrite Z2Nat.id in Hrep2, Hc2 by done.
  split; [done|]. split; [done|]. split; [done|].
  by rewrite Hc2, flat_map_singleton.
Qed.

Lemma build_vec (v : variant) (N : Z) m :
  is_raw v = false → build v N m = lift_vec (vec_build v N) m.
Proof. by destruct v. Qed.

Lemma body_vec (v : variant) (N : Z) m :
  is_raw v = false →
  body v N m =
    bind (vec_build v N)
         (λ vec, DoNotOptimize (Vector vec) ;; vector_destroy vec) m.
Proof. by destruct v. Qed.

Lemma vec_build_ok (v : variant) N m :
  is_raw v = false → 0 ≤ N →
  ∃ vec m' evs,
    vec_build v N m = Ok vec m' evs ∧ vec_rep m' vec (built N) ∧
    since (next m) vec m'.
Proof.
  intros Hv HN. destruct v; try discriminate; simpl.
  - by apply BM_EmplaceBack_build_ok.
  - by apply BM_PushBack_build_ok.
  - destruct (BM_FromRange_build_ok N m HN)
      as (vec & m' & e & ? & ? & ? & _).
    by exists vec, m', e.
  - destruct (BM_FromRangeIterators_build_ok N m HN)
      as (vec & m' & e & ? & ? & ? & _).
    by exists vec, m', e.
Qed.

(** ** All seven variants *)

(** Every variant completes and holds [built N], as long as the byte count
    of a raw block fits size_t. *)
Lemma build_ok (v : variant) N m :
  0 ≤ N → (is_raw v = true → sizeof_MyStruct * N < SIZE_MOD) →
  ∃ h m' evs, build v N m = Ok h m' evs ∧ collection m' h = Some (built N).
Proof.
  intros HN Hfit. destruct (is_raw v) eqn:Hv.
  - eexists _, _, _. split; [by apply build_raw_ok; auto|].
    apply collection_raw_full.
  - destruct (vec_build_ok v N m Hv HN) as (vec & m' & e & Hrun & Hrep & _).
    exists (Vector vec), m', e. split; [|by apply collection_vec_rep].
    rewrite build_vec by done. unfold lift_vec.
    run Hrun. unfold ret. by rewrite app_nil_r.
Qed.

Lemma body_ok (v : variant) N m :
  0 ≤ N → (is_raw v = true → sizeof_MyStruct * N < SIZE_MOD) →
  ∃ m' evs, body v N m = Ok tt m' evs.
Proof.
  intros HN Hfit. destruct (is_raw v) eqn:Hv.
  - eexists _, _. by apply body_raw_ok; auto.
  - destruct (vec_build_ok v N m Hv HN) as (vec & m' & e & Hrun & Hrep & _).
    rewrite body_vec by done. run Hrun.
    unfold bind, DoNotOptimize, vector_destroy.
    destruct Hrep as (_ & _ & Hbuf).
    destruct (vbuf vec) as [p|].
    + unfold delete_array. destruct Hbuf as [_ ->]. by eexists _, _.
    + by eexists _, _.
Qed.

Lemma yields_built (v : variant) N :
  0 ≤ N → (is_raw v = true → sizeof_MyStruct * N < SIZE_MOD) →
  yields v N (built N).
Proof. intros HN Hfit m. by apply build_ok. Qed.

Lemma yields_unique (v : variant) N l1 l2 :
  yields v N l1 → yields v N l2 → l1 = l2.
Proof.
  intros H1 H2.
  destruct (H1 initial_machine) as (h1 & m1 & e1 & Hr1 & Hc1).
  destruct (H2 initial_machine) as (h2 & m2 & e2 & Hr2 & Hc2).
  rewrite Hr1 in Hr2. injection Hr2 as <- <- <-. congruence.
Qed.

(** ** Evaluation on small inputs *)

Example int_of_size_t_examples :
  int_of_size_t 0 = 0 ∧ int_of_size_t 499999 = 499999 ∧
  int_of_size_t 2147483647 = 2147483647 ∧
  int_of_size_t 2147483648 = -2147483648 ∧
  int_of_size_t 4294967295 = -1 ∧ int_of_size_t 4294967296 = 0.
Proof. by repeat split. Qed.

Example every_variant_at_3 :
  Forall (λ v, outcome (build v 3 initial_machine) =
               inr (Some [ {| x := 0; y := 0 |}; {| x := 1; y := 1 |};
                           {| x := 2; y := 2 |} ]))
         all_variants.
Proof. repeat (constructor; [by vm_compute|]). constructor. Qed.

Example BM_PushBack_events_at_2 :
  events (BM_PushBack_body 2 initial_machine) =
    [ EvAlloc 0 2;
      EvTemp {| x := 0; y := 0 |}; EvCopy 0 0 {| x := 0; y := 0 |};
      EvTemp {| x := 1; y := 1 |}; EvCopy 0 1 {| x := 1; y := 1 |};
      EvObserve (Some 0%nat)
        (Some [ {| x := 0; y := 0 |}; {| x := 1; y := 1 |} ]);
      EvFree 0 ].
Proof. by vm_compute. Qed.

Example BM_FromRange_events_at_2 :
  events (BM_FromRange_build 2 initial_machine) =
    [ EvAlloc 0 2;
      EvLambda 0; EvCopy 0 0 {| x := 0; y := 0 |};
      EvLambda 1; EvCopy 0 1 {| x := 1; y := 1 |} ].
Proof. by vm_compute. Qed.

(** The iterator-pair constructor grows its storage as it goes. *)
Example BM_FromRangeIterators_events_at_2 :
  events (BM_FromRangeIterators_build 2 initial_machine) =
    [ EvLambda 0; EvAlloc 0 1; EvCopy 0 0 {| x := 0; y := 0 |};
      EvLambda 1; EvAlloc 1 2; EvCopy 1 0 {| x := 0; y := 0 |}; EvFree 0;
      EvCopy 1 1 {| x := 1; y := 1 |} ].
Proof. by vm_compute. Qed.

Example BM_CBaseline_three_iterations :
  match BM_CBaseline {| range0 := 2; iterations := 3; items_processed := 0 |}
          initial_machine with
  | Ok state' m' evs =>
      items_processed state' = 6 ∧ heap m' = ∅ ∧
      allocated_blocks evs = [0; 1; 2]%nat
  | Fail _ _ _ => False
  end.
Proof. by vm_compute. Qed.

(** ** C1: the reference sequence *)

(** C1, as stated, fails: at N = 2^31 + 1 the raw baseline stores
    x = y = -2^31 at index 2^31, so what it builds is not the reference
    sequence. *)
Lemma C1_counterexample_beyond_int :
  ¬ yields CBaseline (INT_LIM + 1) (reference (INT_LIM + 1)).
Proof.
  intros H.
  assert (yields CBaseline (INT_LIM + 1) (built (INT_LIM + 1))) as Hb.
  { apply yields_built; [unfold INT_LIM; lia|].
    intros _. by apply fits_below_INT_LIM. }
  apply (built_reference_differ (INT_LIM + 1) INT_LIM).
  - unfold INT_LIM. lia.
  - rewrite int_of_size_t_INT_LIM. unfold INT_LIM. lia.
  - exact (yields_unique CBaseline (INT_LIM + 1) _ _ Hb H).
Qed.

(** C1 (amended): for every variant and every N with 0 <= N <= 2^31, one
    timed iteration builds exactly the reference sequence: N elements, the
    one at index i having x = y = i; at N = 5 that is
    [(0,0),(1,1),(2,2),(3,3),(4,4)] for all seven variants. *)
Theorem C1_variants_build_reference (v : variant) (N : Z) :
  0 ≤ N ≤ INT_LIM →
  yields v N (reference N) ∧
  length (reference N) = Z.to_nat N ∧
  (∀ i, 0 ≤ i < N → reference N !! Z.to_nat i = Some {| x := i; y := i |}) ∧
  (N = 5 →
   reference N =
     [ {| x := 0; y := 0 |}; {| x := 1; y := 1 |}; {| x := 2; y := 2 |};
       {| x := 3; y := 3 |}; {| x := 4; y := 4 |} ]).
Proof.
  intros HN. split; [|split; [|split]].
  - rewrite <- built_reference by lia.
    apply yields_built; [lia|]. intros _. apply fits_below_INT_LIM. lia.
  - apply length_reference.
  - intros i Hi. rewrite reference_lookup by lia. by rewrite Z2Nat.id by lia.
  - by intros ->.
Qed.

Lemma C1_witness_five :
  0 ≤ 5 ≤ INT_LIM ∧
  yields FromRangeIterators 5
    [ {| x := 0; y := 0 |}; {| x := 1; y := 1 |}; {| x := 2; y := 2 |};
      {| x := 3; y := 3 |}; {| x := 4; y := 4 |} ].
Proof.
  assert (0 ≤ 5 ≤ INT_LIM) as H by (unfold INT_LIM; lia).
  split; [exact H|].
  exact (proj1 (C1_variants_build_reference FromRangeIterators 5 H)).
Defined.

(** ** C2: the discipline of the raw blocks *)

Lemma raw_discipline_fits (v : variant) N :
  is_raw v = true → 0 ≤ N → sizeof_MyStruct * N < SIZE_MOD →
  raw_discipline v N.
Proof.
  intros Hv HN Hfit m Hfresh.
  eexists (next m), _, _, _, _.
  split; [by apply build_raw_ok|].
  split; [simpl; by rewrite allocated_raw_evok|].
  split; [apply (slot_writes_raw_evok v (next m) (seqZ 0 N))|].
  split.
  { change (length (writes (flat_map (raw_evok v (next m)) (seqZ 0 N))) =
            Z.to_nat N).
    by rewrite writes_raw_evok, length_flat_map_singleton, length_seqZ. }
  split.
  { exists (built N). simpl. by rewrite lookup_insert_eq, length_built. }
  split; [by apply body_raw_ok|].
  split; [by eexists|].
  split; [|by apply fresh_from_after_raw].
  simpl. apply delete_id, Hfresh. done.
Qed.

(** Repetitions of a raw loop body leave the heap as they found it. *)
Lemma raw_repetitions (v : variant) N (state : State) m :
  raw_discipline v N → fresh_from m →
  ∃ m' evs,
    for_each_iteration state (body v N) m = Ok tt m' evs ∧
    heap m' = heap m ∧ fresh_from m'.
Proof.
  intros Hd Hfresh. unfold for_each_iteration.
  destruct (for_loop_ok (λ _ _, body v N)
              (λ _ _ m' _, heap m' = heap m ∧ fresh_from m')
              (Z.to_nat (iterations state)) 0 tt m
              (conj eq_refl Hfresh))
    as ([] & m' & evs & Hrun & Hinv).
  - intros k [] m1 evs _ [Hh Hf].
    destruct (Hd m1 Hf)
      as (p & ma & ea & m2 & e2 & _ & _ & _ & _ & _ & Hb & _ & Hh2 & Hf2).
    exists tt, m2, e2. split; [done|]. split; [congruence|done].
  - by exists m', evs.
Qed.

(** C2, as stated, fails: at N = 2^61 the byte count 8 * N wraps to 0, the
    block has no slot, and the first construction is out of bounds. *)
Lemma C2_counterexample_wrapped_size :
  ¬ raw_discipline CBaseline 2305843009213693952.
Proof.
  intros H.
  destruct (H initial_machine fresh_from_initial)
    as (p & m1 & e1 & _ & _ & Hbuild & _).
  destruct (build_raw_overflow CBaseline 2305843009213693952 initial_machine
              eq_refl) as (m' & evs & Hfail).
  - unfold SIZE_MOD, sizeof_MyStruct. lia.
  - rewrite Hfail in Hbuild. discriminate Hbuild.
Qed.

(** C2 (amended): for every raw variant and every N whose byte count
    sizeof(MyStruct) * N fits size_t (N < 2^61), the loop body obtains one
    block of N slots, initialises each slot exactly once, in order, has all
    N slots initialised when it releases the block, and leaves the heap as
    it found it; so does any number of repetitions. *)
Theorem C2_raw_block_discipline (v : variant) (N : Z) :
  is_raw v = true → 0 ≤ N → sizeof_MyStruct * N < SIZE_MOD →
  raw_discipline v N ∧
  ∀ (state : State) m, fresh_from m →
    ∃ m' evs,
      for_each_iteration state (body v N) m = Ok tt m' evs ∧
      heap m' = heap m.
Proof.
  intros Hv HN Hfit.
  pose proof (raw_discipline_fits v N Hv HN Hfit) as Hd.
  split; [exact Hd|].
  intros state m Hfresh.
  destruct (raw_repetitions v N state m Hd Hfresh) as (m' & evs & ? & ? & _).
  by exists m', evs.
Qed.

Lemma C2_witness_three_slots :
  raw_discipline CBaseline2 3 ∧
  ∃ m' evs,
    for_each_iteration
      {| range0 := 3; iterations := 2; items_processed := 0 |}
      (body CBaseline2 3) initial_machine = Ok tt m' evs ∧
    heap m' = heap initial_machine.
Proof.
  assert (sizeof_MyStruct * 3 < SIZE_MOD) as Hfit by reflexivity.
  assert (0 ≤ 3) as H0 by lia.
  destruct (C2_raw_block_discipline CBaseline2 3 eq_refl H0 Hfit)
    as [Hd Hrep].
  split; [exact Hd|].
  exact (Hrep {| range0 := 3; iterations := 2; items_processed := 0 |}
              initial_machine fresh_from_initial).
Defined.

(** ** C3: [std::construct_at] against placement new *)

(** C3: the [std::construct_at] variant runs exactly as the placement-new
    baseline does, for every N and from every machine state: same result,
    same machine, same events, in the build part and in the whole loop body.
    No event of it is a temporary, a copy or an assignment; and when the
    byte count fits size_t, both leave the block holding [built N], each
    slot constructed in place once. *)
Theorem C3_construct_at_is_placement_new (N : Z) (m : machine) :
  BM_CBaseline3_build N m = BM_CBaseline_build N m ∧
  BM_CBaseline3_body N m = BM_CBaseline_body N m ∧
  Forall (λ e, in_place e = true) (events (BM_CBaseline3_build N m)) ∧
  (0 ≤ N → sizeof_MyStruct * N < SIZE_MOD →
   ∃ p m',
     BM_CBaseline3_build N m =
       Ok p m' (EvAlloc p N ::
                ((λ i, EvConstruct p i (make_record i)) <$> seqZ 0 N)) ∧
     collection m' (RawBlock p) = Some (built N)).
Proof.
  split; [done|]. split; [done|]. split.
  - apply (raw_build_events _ _ _ (raw_step_ok CBaseline3)).
    + done.
    + intros p i. by apply Forall_singleton.
    + intros p i. by apply Forall_nil.
  - intros HN Hfit. eexists _, _. split.
    + rewrite <- flat_map_fmap_singleton.
      apply (raw_build_ok _ _ _ (raw_step_ok CBaseline3) N m HN Hfit).
    + apply collection_raw_full.
Qed.

Lemma C3_witness_four_slots :
  ∃ p m',
    BM_CBaseline3_build 4 initial_machine =
      Ok p m' (EvAlloc p 4 ::
               ((λ i, EvConstruct p i (make_record i)) <$> seqZ 0 4)) ∧
    collection m' (RawBlock p) = Some (built 4).
Proof.
  assert (0 ≤ 4) as H0 by lia.
  assert (sizeof_MyStruct * 4 < SIZE_MOD) as Hfit by reflexivity.
  exact (proj2 (proj2 (proj2
    (C3_construct_at_is_placement_new 4 initial_machine))) H0 Hfit).
Defined.

(** ** C4: the two constructors from a lazy sequence *)

(** C4: handing the lazy sequence to the constructor and handing it its
    begin/end iterators build the same collection, for every N >= 0 and
    from every machine state; in both, the lambda runs once per index of
    [0, N), in order, as the constructor consumes the sequence. *)
Theorem C4_range_and_iterators_agree (N : Z) (m : machine) :
  0 ≤ N →
  ∃ v1 m1 e1 v2 m2 e2,
    BM_FromRange_build N m = Ok v1 m1 e1 ∧
    BM_FromRangeIterators_build N m = Ok v2 m2 e2 ∧
    collection m1 (Vector v1) = Some (built N) ∧
    collection m2 (Vector v2) = collection m1 (Vector v1) ∧
    lambda_calls e1 = seqZ 0 N ∧
    lambda_calls e2 = seqZ 0 N.
Proof.
  intros HN.
  destruct (BM_FromRange_build_ok N m HN)
    as (v1 & m1 & e1 & H1 & R1 & _ & C1).
  destruct (BM_FromRangeIterators_build_ok N m HN)
    as (v2 & m2 & e2 & H2 & R2 & _ & C2).
  exists v1, m1, e1, v2, m2, e2.
  rewrite (collection_vec_rep _ _ _ R1), (collection_vec_rep _ _ _ R2).
  done.
Qed.

Lemma C4_witness_three :
  ∃ v1 m1 e1 v2 m2 e2,
    BM_FromRange_build 3 initial_machine = Ok v1 m1 e1 ∧
    BM_FromRangeIterators_build 3 initial_machine = Ok v2 m2 e2 ∧
    collection m1 (Vector v1) = Some (built 3) ∧
    collection m2 (Vector v2) = collection m1 (Vector v1) ∧
    lambda_calls e1 = seqZ 0 3 ∧
    lambda_calls e2 = seqZ 0 3.
Proof.
  assert (0 ≤ 3) as H0 by lia.
  exact (C4_range_and_iterators_agree 3 initial_machine H0).
Defined.

(** ** C5: assignment instead of construction *)

(** C5: the raw-assign variant obtains the same block as the baseline and
    ends with the same result and the same machine, for every N; none of
    its events is an in-place construction; and when the byte count fits
    size_t, it materialises a temporary and then assigns it to the slot,
    index by index, leaving the block holding [built N]. *)
Theorem C5_assign_fills_like_baseline (N : Z) (m : machine) :
  without_events (BM_CBaseline2_build N m) =
    without_events (BM_CBaseline_build N m) ∧
  outcome (build CBaseline2 N m) = outcome (build CBaseline N m) ∧
  Forall (λ e, is_construct e = false) (events (BM_CBaseline2_build N m)) ∧
  (0 ≤ N → sizeof_MyStruct * N < SIZE_MOD →
   ∃ p m',
     BM_CBaseline2_build N m =
       Ok p m' (EvAlloc p N ::
                flat_map (λ i, [EvTemp (make_record i);
                                EvAssign p i (make_record i)]) (seqZ 0 N)) ∧
     BM_CBaseline_build N m =
       Ok p m' (EvAlloc p N ::
                flat_map (λ i, [EvConstruct p i (make_record i)])
                  (seqZ 0 N)) ∧
     collection m' (RawBlock p) = Some (built N)).
Proof.
  pose proof (raw_build_without_events _ _ _ _ _ _ N m
    (raw_step_ok CBaseline2) (raw_step_ok CBaseline)) as Hsame.
  split; [exact Hsame|]. split; [by apply outcome_lift_raw|]. split.
  - apply (raw_build_events _ _ _ (raw_step_ok CBaseline2)).
    + done.
    + intros p i. by repeat constructor.
    + intros p i. by repeat constructor.
  - intros HN Hfit. eexists _, _. split; [|split].
    + apply (raw_build_ok _ _ _ (raw_step_ok CBaseline2) N m HN Hfit).
    + apply (raw_build_ok _ _ _ (raw_step_ok CBaseline) N m HN Hfit).
    + apply collection_raw_full.
Qed.

Lemma C5_witness_two_slots :
  ∃ p m',
    BM_CBaseline2_build 2 initial_machine =
      Ok p m' (EvAlloc p 2 ::
               flat_map (λ i, [EvTemp (make_record i);
                               EvAssign p i (make_record i)]) (seqZ 0 2)) ∧
    BM_CBaseline_build 2 initial_machine =
      Ok p m' (EvAlloc p 2 ::
               flat_map (λ i, [EvConstruct p i (make_record i)])
                 (seqZ 0 2)) ∧
    collection m' (RawBlock p) = Some (built 2).
Proof.
  assert (0 ≤ 2) as H0 by lia.
  assert (sizeof_MyStruct * 2 < SIZE_MOD) as Hfit by reflexivity.
  exact (proj2 (proj2 (proj2
    (C5_assign_fills_like_baseline 2 initial_machine))) H0 Hfit).
Defined.

(** ** C6: no items *)

(** C6: at N = 0 every variant completes, in its build part and in its
    whole loop body, from every machine state; what it has built is the
    empty collection; no slot is initialised and no slot is allocated. *)
Theorem C6_zero_items (v : variant) (m : machine) :
  ∃ h m1 e1 m2 e2,
    build v 0 m = Ok h m1 e1 ∧
    collection m1 h = Some [] ∧
    writes e1 = [] ∧ slots_allocated e1 = 0 ∧
    body v 0 m = Ok tt m2 e2 ∧
    writes e2 = [] ∧ slots_allocated e2 = 0.
Proof.
  destruct (is_raw v) eqn:Hv.
  - assert (sizeof_MyStruct * 0 < SIZE_MOD) as Hfit by reflexivity.
    eexists _, _, _, _, _.
    split; [by apply build_raw_ok|].
    split; [apply (collection_raw_full _ _ _ (built 0))|].
    split; [done|]. split; [done|].
    split; [by apply body_raw_ok|]. done.
  - destruct v; try discriminate;
      by exists (Vector vector_default), m, [], m,
                [EvObserve None (Some [])].
Qed.

(** ** C7: what [DoNotOptimize] observes *)

(** C7 (evaluation): with N = 1 from the initial machine, each raw variant
    releases its block before [DoNotOptimize] runs, so the observation sees
    a pointer that no longer denotes the collection; the vector variants
    observe the collection while it is alive. *)
Theorem C7_raw_variants_observe_released_block :
  events (body CBaseline 1 initial_machine) =
    [EvAlloc 0 1; EvConstruct 0 0 {| x := 0; y := 0 |};
     EvFree 0; EvObserve (Some 0%nat) None] ∧
  events (body CBaseline2 1 initial_machine) =
    [EvAlloc 0 1; EvTemp {| x := 0; y := 0 |};
     EvAssign 0 0 {| x := 0; y := 0 |};
     EvFree 0; EvObserve (Some 0%nat) None] ∧
  events (body CBaseline3 1 initial_machine) =
    [EvAlloc 0 1; EvConstruct 0 0 {| x := 0; y := 0 |};
     EvFree 0; EvObserve (Some 0%nat) None] ∧
  events (body EmplaceBack 1 initial_machine) =
    [EvAlloc 0 1; EvConstruct 0 0 {| x := 0; y := 0 |};
     EvObserve (Some 0%nat) (Some [{| x := 0; y := 0 |}]); EvFree 0].
Proof. repeat split; by vm_compute. Qed.

(** ** C8: registration and the reported item count *)

Lemma registered_are_variants :
  Forall (λ b, ∃ v, bm_fn b = benchmark_fn (body v)) registered_benchmarks.
Proof.
  repeat constructor.
  - by exists FromRange.
  - by exists FromRangeIterators.
  - by exists EmplaceBack.
  - by exists PushBack.
  - by exists CBaseline.
  - by exists CBaseline2.
  - by exists CBaseline3.
Qed.

(** The timed loop runs its body to completion as often as asked. *)
Lemma for_each_iteration_ok (state : State) (c : M unit) m :
  (∀ m, ∃ m' evs, c m = Ok tt m' evs) →
  ∃ m' evs, for_each_iteration state c m = Ok tt m' evs.
Proof.
  intros Hc. unfold for_each_iteration.
  destruct (for_loop_ok (λ _ _, c) (λ _ _ _ _, True)
              (Z.to_nat (iterations state)) 0 tt m I)
    as ([] & m' & evs & Hrun & _).
  - intros k [] m1 evs _ _. destruct (Hc m1) as (m2 & e & Hrun).
    by exists tt, m2, e.
  - by exists m', evs.
Qed.

Lemma benchmark_fn_ok (v : variant) (state : State) m :
  0 ≤ range0 state → sizeof_MyStruct * range0 state < SIZE_MOD →
  ∃ m' evs,
    benchmark_fn (body v) state m =
      Ok (SetItemsProcessed
            (int64_of_size_t
               (size_t_mul (size_t_of_int64 (iterations state))
                           (range0 state)))
            state) m' evs.
Proof.
  intros H0 Hfit. unfold benchmark_fn.
  assert (size_t_of_int64 (range0 state) = range0 state) as ->.
  { unfold size_t_of_int64. apply Z.mod_small.
    unfold sizeof_MyStruct in Hfit. lia. }
  destruct (for_each_iteration_ok state (body v (range0 state)) m)
    as (m' & evs & Hrun).
  { intros m1. apply body_ok; auto. }
  exists m', (evs ++ []). by run Hrun.
Qed.

(** C8: seven benchmarks are registered, under seven different names, each
    with the single argument 500,000 and 20 repetitions; run with its
    argument N = 500,000 for [it] iterations, each completes and reports
    [it * N] items, as long as that product fits int64_t. *)
Theorem C8_registration_and_item_count :
  length registered_benchmarks = 7%nat ∧
  NoDup (bm_name <$> registered_benchmarks) ∧
  Forall (λ b, bm_args b = [500000] ∧ bm_repetitions b = Some 20)
         registered_benchmarks ∧
  ∀ b (N it : Z) m,
    b ∈ registered_benchmarks → bm_args b = [N] →
    0 ≤ it → it * N < INT64_LIM →
    ∃ state' m' evs,
      bm_fn b {| range0 := N; iterations := it; items_processed := 0 |} m =
        Ok state' m' evs ∧
      items_processed state' = it * N.
Proof.
  assert (Forall (λ b, bm_args b = [500000] ∧ bm_repetitions b = Some 20)
                 registered_benchmarks) as Hargs by by repeat constructor.
  split; [done|]. split; [|split; [exact Hargs|]].
  - apply (bool_decide_unpack _). by vm_compute.
  - intros b N it m Hb HN Hit Hfit.
    rewrite Forall_forall in Hargs. destruct (Hargs b Hb) as [Hb500 _].
    assert (N = 500000) as -> by congruence.
    pose proof registered_are_variants as Hall.
    rewrite Forall_forall in Hall. destruct (Hall b Hb) as [v ->].
    destruct (benchmark_fn_ok v
      {| range0 := 500000; iterations := it; items_processed := 0 |} m)
      as (m' & evs & Hrun); [simpl; lia|reflexivity|].
    eexists _, m', evs. split; [exact Hrun|].
    simpl. by apply items_processed_exact.
Qed.

Lemma C8_witness_one_thousand_iterations :
  ∃ state' m' evs,
    BM_PushBack
      {| range0 := 500000; iterations := 1000; items_processed := 0 |}
      initial_machine = Ok state' m' evs ∧
    items_processed state' = 1000 * 500000.
Proof.
  assert (Repetitions 20 (Arg 500000 (BENCHMARK "BM_PushBack" BM_PushBack))
          ∈ registered_benchmarks) as Hin.
  { unfold registered_benchmarks. rewrite !elem_of_cons. do 3 right. by left. }
  assert (0 ≤ 1000) as Hit by lia.
  assert (1000 * 500000 < INT64_LIM) as Hfit by reflexivity.
  exact (proj2 (proj2 (proj2 C8_registration_and_item_count))
           _ 500000 1000 initial_machine Hin eq_refl Hit Hfit).
Defined.

(** ** C9: two runs of one variant *)

Lemma outcome_independent (v : variant) N m1 m2 :
  0 ≤ N → outcome (build v N m1) = outcome (build v N m2).
Proof.
  intros HN. destruct (is_raw v) eqn:Hv.
  - destruct (decide (sizeof_MyStruct * N < SIZE_MOD)) as [Hfit|Hwrap].
    + rewrite !build_raw_ok by done. simpl.
      by rewrite !lookup_insert_eq.
    + destruct (build_raw_overflow v N m1 Hv) as (? & ? & ->); [lia|].
      destruct (build_raw_overflow v N m2 Hv) as (? & ? & ->); [lia|].
      done.
  - destruct (build_ok v N m1 HN) as (? & ? & ? & -> & H1); [congruence|].
    destruct (build_ok v N m2 HN) as (? & ? & ? & -> & H2); [congruence|].
    simpl. congruence.
Qed.

(** The storage a build ends up with was obtained during that build. *)
Lemma build_storage_bounds (v : variant) N m h ma e p :
  0 ≤ N → build v N m = Ok h ma e → storage h = Some p →
  (next m ≤ p < next ma)%nat.
Proof.
  intros HN Hrun Hp. destruct (is_raw v) eqn:Hv.
  - destruct (decide (sizeof_MyStruct * N < SIZE_MOD)) as [Hfit|Hwrap].
    + rewrite build_raw_ok in Hrun by done.
      injection Hrun as <- <- <-. simpl in *. injection Hp as <-. lia.
    + destruct (build_raw_overflow v N m Hv) as (? & ? & Hf); [lia|].
      congruence.
  - destruct (vec_build_ok v N m Hv HN)
      as (vec & m' & e' & Hb & Hrep & [_ Hsince]).
    rewrite build_vec in Hrun by done. unfold lift_vec in Hrun.
    run Hb in Hrun. injection Hrun as <- <- <-.
    simpl in Hp. split; [by apply Hsince|].
    destruct Hrep as (_ & _ & Hbuf). rewrite Hp in Hbuf. by destruct Hbuf.
Qed.

(** The rest of the loop body allocates nothing. *)
Lemma body_after_build (v : variant) N m h ma e mb eb :
  build v N m = Ok h ma e → body v N m = Ok tt mb eb → next mb = next ma.
Proof.
  intros Hrun Hbody. destruct (is_raw v) eqn:Hv.
  - rewrite build_raw in Hrun by done. rewrite body_raw in Hbody by done.
    unfold lift_raw, bind, ret, delete_array, DoNotOptimize in *.
    destruct (raw_build (raw_step v) N m) as [p m' e'|]; [|done].
    injection Hrun as <- <- <-.
    destruct (heap m' !! p); [|done]. by injection Hbody as <- <-.
  - rewrite build_vec in Hrun by done. rewrite body_vec in Hbody by done.
    unfold lift_vec, bind, ret, vector_destroy, delete_array,
      DoNotOptimize in *.
    destruct (vec_build v N m) as [vec m' e'|]; [|done].
    injection Hrun as <- <- <-. simpl in Hbody.
    destruct (vbuf vec) as [p|]; [|by injection Hbody as <- <-].
    destruct (heap m' !! p); [|done]. by injection Hbody as <- <-.
Qed.

(** C9: what a variant builds for a given N >= 0 does not depend on the
    machine state it starts from; in particular the second of two
    consecutive iterations builds a collection equal to the first one, in
    storage that is not the storage of the first. *)
Theorem C9_same_collection_in_distinct_storage
    (v : variant) (N : Z) (m1 m2 : machine) :
  0 ≤ N →
  outcome (build v N m1) = outcome (build v N m2) ∧
  ∀ h1 ma e1 mb eb h2 mc e2,
    build v N m1 = Ok h1 ma e1 →
    body v N m1 = Ok tt mb eb →
    build v N mb = Ok h2 mc e2 →
    collection mc h2 = collection ma h1 ∧
    ∀ p1 p2, storage h1 = Some p1 → storage h2 = Some p2 → p1 ≠ p2.
Proof.
  intros HN. split; [by apply outcome_independent|].
  intros h1 ma e1 mb eb h2 mc e2 Hb1 Hbody Hb2. split.
  - pose proof (outcome_independent v N m1 mb HN) as Ho.
    rewrite Hb1, Hb2 in Ho. simpl in Ho. congruence.
  - intros p1 p2 Hp1 Hp2.
    pose proof (build_storage_bounds v N m1 h1 ma e1 p1 HN Hb1 Hp1).
    pose proof (build_storage_bounds v N mb h2 mc e2 p2 HN Hb2 Hp2).
    pose proof (body_after_build v N m1 h1 ma e1 mb eb Hb1 Hbody).
    lia.
Qed.

Lemma C9_witness_two_machines :
  outcome (build PushBack 2 initial_machine) =
  outcome (build PushBack 2 {| heap := {[ 3%nat := [] ]}; next := 7 |}).
Proof.
  assert (0 ≤ 2) as H0 by lia.
  exact (proj1 (C9_same_collection_in_distinct_storage PushBack 2
                  initial_machine
                  {| heap := {[ 3%nat := [] ]}; next := 7 |} H0)).
Defined.

(** ** C10: the index as an [int] *)

(** C10: every variant stores the index after its conversion from size_t to
    int ([built] is made of [MyStruct_ctor (int_of_size_t i)
    (int_of_size_t i)]); below 2^31 the conversion preserves the index, so
    up to the registered N = 500,000 the stored sequence is the reference
    one with x = y = i; at index 2^31 the stored fields are -2^31. *)
Theorem C10_index_narrowing (v : variant) (N : Z) :
  0 ≤ N → sizeof_MyStruct * N < SIZE_MOD →
  yields v N (built N) ∧
  (∀ i, 0 ≤ i < N →
     built N !! Z.to_nat i =
       Some (MyStruct_ctor (int_of_size_t i) (int_of_size_t i))) ∧
  (∀ i, 0 ≤ i < INT_LIM → int_of_size_t i = i) ∧
  (∀ i, 0 ≤ i < N → i < INT_LIM →
     built N !! Z.to_nat i = Some {| x := i; y := i |}) ∧
  (N ≤ 500000 → built N = reference N) ∧
  (INT_LIM < N →
     built N !! Z.to_nat INT_LIM = Some {| x := - INT_LIM; y := - INT_LIM |}).
Proof.
  intros HN Hfit.
  assert (∀ i, 0 ≤ i < N → built N !! Z.to_nat i = Some (make_record i))
    as Hlook.
  { intros i Hi. rewrite built_lookup by lia. by rewrite Z2Nat.id by lia. }
  split; [by apply yields_built|]. split; [exact Hlook|].
  split; [exact int_of_size_t_small|]. split; [|split].
  - intros i Hi Hlim. rewrite Hlook by done.
    by rewrite make_record_small by lia.
  - intros H. apply built_reference. unfold INT_LIM. lia.
  - intros H. rewrite Hlook by (unfold INT_LIM in *; lia).
    unfold make_record. by rewrite int_of_size_t_INT_LIM.
Qed.

Lemma C10_witness_registered_size :
  yields CBaseline3 500000 (reference 500000).
Proof.
  assert (0 ≤ 500000) as H0 by lia.
  assert (sizeof_MyStruct * 500000 < SIZE_MOD) as Hfit by reflexivity.
  destruct (C10_index_narrowing CBaseline3 500000 H0 Hfit)
    as (Hy & _ & _ & _ & Href & _).
  rewrite <- Href by lia. exact Hy.
Defined.

(** * Properties beyond the claims *)

(** ** Filling reserved storage *)

(** A loop that constructs element [k] of a vector with room for [cap]
    elements, iteration by iteration, never touches the capacity. *)
Lemma vector_fill_loop (step : Z → vector → M vector) (p cap : nat)
    (h : gmap nat block) (nx : nat) (ev : Z → list event) (cnt : nat) :
  (cnt ≤ cap)%nat →
  (∀ (k : nat) blk, (k < cnt)%nat → length blk = cap →
     step (Z.of_nat k)
       {| vbuf := Some p; vsize := Z.of_nat k; vcap := Z.of_nat cap |}
       {| heap := <[p := blk]> h; next := nx |} =
     Ok {| vbuf := Some p; vsize := Z.of_nat k + 1; vcap := Z.of_nat cap |}
        {| heap := <[p := <[k := Some (make_record (Z.of_nat k))]> blk]> h;
           next := nx |}
        (ev (Z.of_nat k))) →
  for_loop cnt 0 step
      {| vbuf := Some p; vsize := 0; vcap := Z.of_nat cap |}
      {| heap := <[p := replicate cap None]> h; next := nx |} =
    Ok {| vbuf := Some p; vsize := Z.of_nat cnt; vcap := Z.of_nat cap |}
       {| heap := <[p := (Some <$> built (Z.of_nat cnt)) ++
                          replicate (cap - cnt) None]> h;
          next := nx |}
       (flat_map ev (seqZ 0 (Z.of_nat cnt))).
Proof.
  induction cnt as [|cnt IH]; intros Hle Hstep.
  - simpl. by rewrite Nat.sub_0_r.
  - rewrite for_loop_snoc.
    run (IH ltac:(lia) (λ k blk Hk, Hstep k blk ltac:(lia))).
    rewrite Z.add_0_l, Hstep.
    + pose proof (insert_next_slot (built (Z.of_nat cnt))
                    (make_record (Z.of_nat cnt)) cap) as Hins.
      rewrite length_built, Nat2Z.id in Hins. rewrite Hins by lia.
      rewrite <- built_S, seqZ_S, flat_map_app. simpl.
      rewrite app_nil_r, Z.add_0_l.
      by replace (Z.of_nat cnt + 1) with (Z.of_nat (S cnt)) by lia.
    + lia.
    + rewrite length_app, length_fmap, length_built, length_replicate. lia.
Qed.

Section room.
Variable ctor : nat → Z → M unit.
Variable val : MyStruct.
Variable evc : nat → Z → list event.
Hypothesis Hctor : ctor_spec ctor val evc.

Lemma construct_next_room p (k cap : nat) blk h nx :
  (k < cap)%nat → length blk = cap →
  construct_next ctor
      {| vbuf := Some p; vsize := Z.of_nat k; vcap := Z.of_nat cap |}
      {| heap := <[p := blk]> h; next := nx |} =
    Ok {| vbuf := Some p; vsize := Z.of_nat k + 1; vcap := Z.of_nat cap |}
       {| heap := <[p := <[k := Some val]> blk]> h; next := nx |}
       (evc p (Z.of_nat k)).
Proof.
  intros Hk Hlen. unfold construct_next, bind, ret. simpl.
  rewrite Hctor, write_slot_insert by lia.
  by rewrite Nat2Z.id, app_nil_r.
Qed.

(** With room left, appending does not reallocate. *)
Lemma append_room p (k cap : nat) blk h nx :
  (k < cap)%nat → length blk = cap →
  append ctor
      {| vbuf := Some p; vsize := Z.of_nat k; vcap := Z.of_nat cap |}
      {| heap := <[p := blk]> h; next := nx |} =
    Ok {| vbuf := Some p; vsize := Z.of_nat k + 1; vcap := Z.of_nat cap |}
       {| heap := <[p := <[k := Some val]> blk]> h; next := nx |}
       (evc p (Z.of_nat k)).
Proof.
  intros Hk Hlen. unfold append. simpl.
  rewrite bool_decide_eq_true_2 by lia.
  rewrite bind_ret_l. by apply construct_next_room.
Qed.

End room.

(** [reserve] on a fresh vector obtains storage for exactly [N] elements. *)
Lemma reserve_default N m :
  0 < N →
  reserve N vector_default m =
    Ok {| vbuf := Some (next m); vsize := 0; vcap := N |}
       {| heap := <[next m := replicate (Z.to_nat N) None]> (heap m);
          next := S (next m) |}
       [EvAlloc (next m) N].
Proof.
  intros HN. unfold reserve. simpl.
  by rewrite bool_decide_eq_true_2.
Qed.

(** Reserve, then fill: one allocation, one construction per slot. *)
Lemma reserve_then_fill (step : Z → vector → M vector)
    (ev : nat → Z → list event) N m :
  0 < N →
  (∀ p (k cap : nat) blk h nx, (k < cap)%nat → length blk = cap →
     step (Z.of_nat k)
       {| vbuf := Some p; vsize := Z.of_nat k; vcap := Z.of_nat cap |}
       {| heap := <[p := blk]> h; next := nx |} =
     Ok {| vbuf := Some p; vsize := Z.of_nat k + 1; vcap := Z.of_nat cap |}
        {| heap := <[p := <[k := Some (make_record (Z.of_nat k))]> blk]> h;
           next := nx |}
        (ev p (Z.of_nat k))) →
  (vec <- reserve N vector_default ;; for_loop (Z.to_nat N) 0 step vec) m =
    Ok {| vbuf := Some (next m); vsize := N; vcap := N |}
       {| heap := <[next m := Some <$> built N]> (heap m);
          next := S (next m) |}
       (EvAlloc (next m) N :: flat_map (ev (next m)) (seqZ 0 N)).
Proof.
  intros HN Hstep. run (reserve_default N m HN).
  pose proof (vector_fill_loop step (next m) (Z.to_nat N) (heap m)
                (S (next m)) (ev (next m)) (Z.to_nat N) (le_n _)) as Hfill.
  rewrite Z2Nat.id, Nat.sub_diag, app_nil_r in Hfill by lia.
  rewrite Hfill; [done|].
  intros k blk Hk Hlen.
  pose proof (Hstep (next m) k (Z.to_nat N) blk (heap m) (S (next m))
                Hk Hlen) as H.
  by rewrite Z2Nat.id in H by lia.
Qed.

(** ** The vector variants that reserve *)

Lemma BM_EmplaceBack_build_exact N m :
  0 < N →
  BM_EmplaceBack_build N m =
    Ok {| vbuf := Some (next m); vsize := N; vcap := N |}
       {| heap := <[next m := Some <$> built N]> (heap m);
          next := S (next m) |}
       (EvAlloc (next m) N ::
        flat_map (λ i, [EvConstruct (next m) i (make_record i)]) (seqZ 0 N)).
Proof.
  intros HN. unfold BM_EmplaceBack_build, for_size_t.
  apply (reserve_then_fill _
           (λ p i, [EvConstruct p i (make_record i)]) N m HN).
  intros p k cap blk h nx Hk Hlen. unfold emplace_back.
  by apply (append_room _ _ _
              (construct_at_spec (int_of_size_t (Z.of_nat k))
                                 (int_of_size_t (Z.of_nat k)))).
Qed.

Lemma BM_PushBack_build_exact N m :
  0 < N →
  BM_PushBack_build N m =
    Ok {| vbuf := Some (next m); vsize := N; vcap := N |}
       {| heap := <[next m := Some <$> built N]> (heap m);
          next := S (next m) |}
       (EvAlloc (next m) N ::
        flat_map (λ i, [EvTemp (make_record i);
                        EvCopy (next m) i (make_record i)]) (seqZ 0 N)).
Proof.
  intros HN. unfold BM_PushBack_build, for_size_t.
  apply (reserve_then_fill _
           (λ p i, [EvTemp (make_record i); EvCopy p i (make_record i)])
           N m HN).
  intros p k cap blk h nx Hk Hlen.
  run (eq_refl : materialize _ _ _ = Ok (make_record (Z.of_nat k)) _ _).
  unfold push_back.
  by rewrite (append_room _ _ _
                (copy_construct_spec (make_record (Z.of_nat k)))).
Qed.

Lemma BM_FromRange_build_exact N m :
  0 < N →
  BM_FromRange_build N m =
    Ok {| vbuf := Some (next m); vsize := N; vcap := N |}
       {| heap := <[next m := Some <$> built N]> (heap m);
          next := S (next m) |}
       (EvAlloc (next m) N ::
        flat_map (λ i, [EvLambda i; EvCopy (next m) i (make_record i)])
                 (seqZ 0 N)).
Proof.
  intros HN. unfold BM_FromRange_build, vector_from_range. simpl.
  rewrite Z.sub_0_r.
  apply (reserve_then_fill _
           (λ p i, [EvLambda i; EvCopy p i (make_record i)]) N m HN).
  intros p k cap blk h nx Hk Hlen.
  run (eq_refl : deref make_record _ _ = Ok (make_record (Z.of_nat k)) _ _).
  by rewrite (construct_next_room _ _ _
                (copy_construct_spec (make_record (Z.of_nat k)))).
Qed.

(** X1: with N >= 1, [reserve(N)] followed by N calls of [emplace_back]
    obtains storage once, for exactly N elements, and constructs each slot
    in place once, in index order: nothing is relocated, and size and
    capacity end at N.  When the byte count of the raw baseline fits size_t,
    the baseline leaves the same heap after the same events. *)
Theorem X1_emplace_back_after_reserve (N : Z) (m : machine) :
  0 < N →
  BM_EmplaceBack_build N m =
    Ok {| vbuf := Some (next m); vsize := N; vcap := N |}
       {| heap := <[next m := Some <$> built N]> (heap m);
          next := S (next m) |}
       (EvAlloc (next m) N ::
        flat_map (λ i, [EvConstruct (next m) i (make_record i)]) (seqZ 0 N)) ∧
  (sizeof_MyStruct * N < SIZE_MOD →
   ∃ p m' evs,
     BM_CBaseline_build N m = Ok p m' evs ∧
     BM_EmplaceBack_build N m =
       Ok {| vbuf := Some p; vsize := N; vcap := N |} m' evs).
Proof.
  intros HN. split; [by apply BM_EmplaceBack_build_exact|].
  intros Hfit. eexists _, _, _.
  split; [|by apply BM_EmplaceBack_build_exact].
  apply (raw_build_ok _ _ _ (raw_step_ok CBaseline) N m); [lia|done].
Qed.

Lemma X1_witness_three :
  BM_EmplaceBack_build 3 initial_machine =
    Ok {| vbuf := Some 0%nat; vsize := 3; vcap := 3 |}
       {| heap := <[0%nat := Some <$> built 3]> ∅; next := 1 |}
       (EvAlloc 0 3 ::
        flat_map (λ i, [EvConstruct 0 i (make_record i)]) (seqZ 0 3)).
Proof.
  assert (0 < 3) as H by lia.
  exact (proj1 (X1_emplace_back_after_reserve 3 initial_machine H)).
Defined.

(** X2: with N >= 1, [reserve(N)] followed by N times "construct a local,
    [push_back] it" obtains storage once, for exactly N elements; for each
    index, in order, a [MyStruct] is materialised and then copied into the
    slot; nothing is relocated, and the vector ends holding [built N] with
    size and capacity N. *)
Theorem X2_push_back_after_reserve (N : Z) (m : machine) :
  0 < N →
  BM_PushBack_build N m =
    Ok {| vbuf := Some (next m); vsize := N; vcap := N |}
       {| heap := <[next m := Some <$> built N]> (heap m);
          next := S (next m) |}
       (EvAlloc (next m) N ::
        flat_map (λ i, [EvTemp (make_record i);
                        EvCopy (next m) i (make_record i)]) (seqZ 0 N)).
Proof. apply BM_PushBack_build_exact. Qed.

Lemma X2_witness_three :
  BM_PushBack_build 3 initial_machine =
    Ok {| vbuf := Some 0%nat; vsize := 3; vcap := 3 |}
       {| heap := <[0%nat := Some <$> built 3]> ∅; next := 1 |}
       (EvAlloc 0 3 ::
        flat_map (λ i, [EvTemp (make_record i);
                        EvCopy 0 i (make_record i)]) (seqZ 0 3)).
Proof.
  assert (0 < 3) as H by lia.
  exact (X2_push_back_after_reserve 3 initial_machine H).
Defined.

(** X3: with N >= 1, constructing the vector from the lazy range obtains
    storage once, for exactly N elements; for each index, in order, the
    lambda is called and its result is at once copied into the slot of that
    index, so no element is computed ahead of its use; the vector ends
    holding [built N] with size and capacity N. *)
Theorem X3_from_range_fills_on_demand (N : Z) (m : machine) :
  0 < N →
  BM_FromRange_build N m =
    Ok {| vbuf := Some (next m); vsize := N; vcap := N |}
       {| heap := <[next m := Some <$> built N]> (heap m);
          next := S (next m) |}
       (EvAlloc (next m) N ::
        flat_map (λ i, [EvLambda i; EvCopy (next m) i (make_record i)])
                 (seqZ 0 N)).
Proof. apply BM_FromRange_build_exact. Qed.

Lemma X3_witness_three :
  BM_FromRange_build 3 initial_machine =
    Ok {| vbuf := Some 0%nat; vsize := 3; vcap := 3 |}
       {| heap := <[0%nat := Some <$> built 3]> ∅; next := 1 |}
       (EvAlloc 0 3 ::
        flat_map (λ i, [EvLambda i; EvCopy 0 i (make_record i)]) (seqZ 0 3)).
Proof.
  assert (0 < 3) as H by lia.
  exact (X3_from_range_fills_on_demand 3 initial_machine H).
Defined.

(** ** The raw variants once the byte count has wrapped *)

Lemma slot_writes_app p e1 e2 :
  slot_writes p (e1 ++ e2) = slot_writes p e1 ++ slot_writes p e2.
Proof. unfold slot_writes, writes. by rewrite !omap_app. Qed.

Lemma released_raw_evok (v : variant) p l :
  released_blocks (flat_map (raw_evok v p) l) = [].
Proof.
  unfold released_blocks. rewrite omap_flat_map.
  rewrite <- (flat_map_nil (B := nat) l). apply flat_map_pointwise.
  intros i. by destruct v.
Qed.

Lemma observations_raw_evok (v : variant) p l :
  observations (flat_map (raw_evok v p) l) = [].
Proof.
  unfold observations. rewrite omap_flat_map.
  rewrite <- (flat_map_nil (B := option nat * option (list MyStruct)) l).
  apply flat_map_pointwise. intros i. by destruct v.
Qed.

Lemma body_raw_overflow (v : variant) N m :
  is_raw v = true → SIZE_MOD ≤ sizeof_MyStruct * N →
  body v N m =
    Fail out_of_bounds
      {| heap := <[next m := Some <$> built
                     (size_t_mul sizeof_MyStruct N / sizeof_MyStruct)]>
                   (heap m);
         next := S (next m) |}
      (EvAlloc (next m) (size_t_mul sizeof_MyStruct N / sizeof_MyStruct) ::
         flat_map (raw_evok v (next m))
           (seqZ 0 (size_t_mul sizeof_MyStruct N / sizeof_MyStruct)) ++
         raw_evfail v (next m)
           (size_t_mul sizeof_MyStruct N / sizeof_MyStruct)).
Proof.
  intros Hv Hw. rewrite body_raw by done.
  apply bind_Fail. by apply (raw_build_overflow _ _ _ (raw_step_ok v)).
Qed.

(** X4: when the byte count sizeof(MyStruct) * N does not fit size_t, the
    loop body of a raw variant obtains a block of only
    n = (8 * N mod 2^64) / 8 < N slots, initialises each of them once, in
    order, and then fails on the write to slot n, past the end of the block;
    it never reaches [delete[]] or [DoNotOptimize], so the block stays
    allocated. *)
Theorem X4_wrapped_byte_count_overruns_block (v : variant) (N : Z) m :
  is_raw v = true → SIZE_MOD ≤ sizeof_MyStruct * N →
  ∃ n m' evs,
    n = size_t_mul sizeof_MyStruct N / sizeof_MyStruct ∧ 0 ≤ n < N ∧
    body v N m = Fail out_of_bounds m' evs ∧
    allocated_blocks evs = [next m] ∧ slots_allocated evs = n ∧
    slot_writes (next m) evs = seqZ 0 n ∧
    heap m' !! next m = Some (Some <$> built n) ∧
    released_blocks evs = [] ∧ observations evs = [].
Proof.
  intros Hv Hw.
  eexists _, _, _. split; [reflexivity|].
  split; [by apply size_t_mul_sizeof_wrapped|].
  split; [by apply body_raw_overflow|].
  set (n := size_t_mul sizeof_MyStruct N / sizeof_MyStruct).
  assert (raw_evfail v (next m) n = [] ∨
          raw_evfail v (next m) n = [EvTemp (make_record n)]) as Hf
    by (destruct v; simpl; auto).
  split; [|split; [|split; [|split; [|split]]]].
  - change (allocated_blocks (EvAlloc (next m) n :: ?e))
      with (next m :: allocated_blocks e).
    unfold allocated_blocks. rewrite omap_app.
    fold (allocated_blocks (flat_map (raw_evok v (next m)) (seqZ 0 n))).
    rewrite allocated_raw_evok. by destruct Hf as [-> | ->].
  - unfold slots_allocated. simpl. rewrite foldr_app.
    fold (slots_allocated (flat_map (raw_evok v (next m)) (seqZ 0 n))).
    assert (∀ l, slots_allocated (flat_map (raw_evok v (next m)) l) = 0)
      as H0.
    { induction l as [|i l IH]; [done|]. simpl.
      unfold slots_allocated in *. rewrite foldr_app, IH.
      by destruct v. }
    destruct Hf as [-> | ->]; simpl; rewrite H0; lia.
  - change (slot_writes (next m) (EvAlloc (next m) n :: ?e))
      with (slot_writes (next m) e).
    rewrite slot_writes_app, slot_writes_raw_evok.
    destruct Hf as [-> | ->]; by rewrite app_nil_r.
  - simpl. by rewrite lookup_insert_eq.
  - change (released_blocks (EvAlloc (next m) n :: ?e))
      with (released_blocks e).
    unfold released_blocks. rewrite omap_app.
    fold (released_blocks (flat_map (raw_evok v (next m)) (seqZ 0 n))).
    rewrite released_raw_evok. by destruct Hf as [-> | ->].
  - change (observations (EvAlloc (next m) n :: ?e)) with (observations e).
    unfold observations. rewrite omap_app.
    fold (observations (flat_map (raw_evok v (next m)) (seqZ 0 n))).
    rewrite observations_raw_evok. by destruct Hf as [-> | ->].
Qed.

Lemma X4_witness_two_to_the_61 :
  ∃ n m' evs,
    n = size_t_mul sizeof_MyStruct 2305843009213693952 / sizeof_MyStruct ∧
    0 ≤ n < 2305843009213693952 ∧
    body CBaseline2 2305843009213693952 initial_machine =
      Fail out_of_bounds m' evs ∧
    allocated_blocks evs = [next initial_machine] ∧
    slots_allocated evs = n ∧
    slot_writes (next initial_machine) evs = seqZ 0 n ∧
    heap m' !! next initial_machine = Some (Some <$> built n) ∧
    released_blocks evs = [] ∧ observations evs = [].
Proof.
  assert (SIZE_MOD ≤ sizeof_MyStruct * 2305843009213693952) as Hw
    by (unfold SIZE_MOD, sizeof_MyStruct; lia).
  exact (X4_wrapped_byte_count_overruns_block CBaseline2
           2305843009213693952 initial_machine eq_refl Hw).
Defined.

(** ** An argument outside the sizes a raw block can have *)





(** ** The heap around a vector *)

Lemma held_default m : fresh_from m → held (heap m) m vector_default.
Proof. by split. Qed.

Lemma reallocate_held h0 n v m l v' m' e :
  vec_rep m v l → Z.of_nat (length l) ≤ n → held h0 m v →
  reallocate n v m = Ok v' m' e → held h0 m' v'.
Proof.
  intros (Hsz & Hcap & Hbuf) Hn [Hfresh Hdrop] Hrun.
  unfold reallocate in Hrun. unfold drop_buf in Hdrop.
  run (eq_refl : allocate n m = Ok _ _ _) in Hrun.
  destruct (vbuf v) as [p|].
  - destruct Hbuf as [Hlt Hblk].
    destruct (move_elements_spec p (next m) l (Z.to_nat n) _ (heap m)
                (S (next m)) ltac:(lia) ltac:(lia) Hblk)
      as (evs & Hmove & _).
    rewrite <- Hsz in Hmove.
    rewrite bind_assoc in Hrun. run Hmove in Hrun.
    unfold bind, delete_array, ret in Hrun. simpl in Hrun.
    rewrite lookup_insert_ne, Hblk in Hrun by lia. simpl in Hrun.
    injection Hrun as <- <- _. split.
    + intros q Hq. simpl in *.
      rewrite lookup_delete_ne, lookup_insert_ne by lia. apply Hfresh. lia.
    + unfold drop_buf. simpl.
      rewrite (delete_delete _ (next m) p), delete_insert_eq, <- Hdrop.
      rewrite (delete_id (heap m) (next m)); [done|]. by apply Hfresh.
  - unfold bind, ret in Hrun. simpl in Hrun.
    injection Hrun as <- <- _. split.
    + intros q Hq. simpl in *.
      rewrite lookup_insert_ne by lia. apply Hfresh. lia.
    + unfold drop_buf. simpl.
      rewrite delete_insert_eq, <- Hdrop. apply delete_id. by apply Hfresh.
Qed.

Section constructors_held.
Variable ctor : nat → Z → M unit.
Variable val : MyStruct.
Variable evc : nat → Z → list event.
Hypothesis Hctor : ctor_spec ctor val evc.

Lemma construct_next_held h0 v m l v' m' e :
  vec_rep m v l → vsize v < vcap v → held h0 m v →
  construct_next ctor v m = Ok v' m' e → held h0 m' v'.
Proof.
  intros (Hsz & Hcap & Hbuf) Hroom [Hfresh Hdrop] Hrun.
  unfold construct_next in Hrun. unfold drop_buf in *.
  destruct (vbuf v) as [p|] eqn:Hp; [|lia].
  destruct Hbuf as [Hlt Hblk].
  unfold bind in Hrun. rewrite Hctor in Hrun.
  erewrite write_slot_lookup in Hrun; [|exact Hblk|].
  - unfold ret in Hrun. injection Hrun as <- <- _. split.
    + intros q Hq. simpl in *.
      rewrite lookup_insert_ne by lia. by apply Hfresh.
    + unfold drop_buf. simpl. by rewrite delete_insert_eq.
  - rewrite length_app, length_fmap, length_replicate. lia.
Qed.

Lemma append_held h0 v m l v' m' e :
  vec_rep m v l → held h0 m v →
  append ctor v m = Ok v' m' e → held h0 m' v'.
Proof.
  intros Hrep Hheld Hrun. unfold append in Hrun.
  case_bool_decide as Hroom.
  - rewrite bind_ret_l in Hrun.
    by apply (construct_next_held h0 v m l v' m' e).
  - assert (Z.of_nat (length l) ≤ grown_capacity v) as Hgrow.
    { destruct Hrep as (? & ? & _). unfold grown_capacity. lia. }
    destruct (reallocate_spec (grown_capacity v) v m l Hrep Hgrow)
      as (m1 & e1 & Hr & Hrep1 & _ & _).
    pose proof (reallocate_held h0 _ v m l _ m1 e1 Hrep Hgrow Hheld Hr)
      as Hheld1.
    run Hr in Hrun.
    destruct (construct_next ctor _ m1) as [v2 m2 e2|] eqn:Hc; [|done].
    injection Hrun as <- <- _.
    apply (construct_next_held h0 _ m1 l v2 m2 e2 Hrep1); [|done|exact Hc].
    simpl. unfold grown_capacity. destruct Hrep as (? & ? & _). lia.
Qed.

End constructors_held.

Lemma BM_FromRangeIterators_build_held N m :
  0 ≤ N → fresh_from m →
  ∃ vec m' evs,
    BM_FromRangeIterators_build N m = Ok vec m' evs ∧
    vec_rep m' vec (built N) ∧ held (heap m) m' vec.
Proof.
  intros HN Hfresh.
  unfold BM_FromRangeIterators_build, vector_from_iterators.
  simpl. rewrite Z.sub_0_r.
  destruct (vector_loop
    (λ pos v, obj <- deref make_record pos ;; push_back obj v)
    (λ v m', held (heap m) m' v) (λ k, [k]) (Z.to_nat N) vector_default m
    (vec_rep_default m) (held_default m Hfresh))
    as (v2 & m2 & e2 & Hloop & Hrep2 & Hheld & _).
  { intros k v m' _ Hrep Hheld.
    destruct (append_spec _ _ _
                (copy_construct_spec (make_record (Z.of_nat k)))
                (λ _ _, eq_refl) m' v _ Hrep)
      as (v' & m'' & e & Hrun & Hrep' & He & _).
    exists v', m'', (EvLambda (Z.of_nat k) :: e).
    split; [|split; [exact Hrep'|split]].
    - run (eq_refl : deref make_record _ m' = Ok _ m' _).
      unfold push_back. by rewrite Hrun.
    - by apply (append_held _ _ _
                  (copy_construct_spec (make_record (Z.of_nat k)))
                  _ v m' _ v' m'' e Hrep).
    - simpl. by rewrite He. }
  exists v2, m2, e2. by rewrite Z2Nat.id in Hrep2 by done.
Qed.

Lemma held_after_sized_build m N :
  fresh_from m →
  held (heap m)
    {| heap := <[next m := Some <$> built N]> (heap m); next := S (next m) |}
    {| vbuf := Some (next m); vsize := N; vcap := N |}.
Proof.
  intros Hfresh. split.
  - intros q Hq. simpl in *. rewrite lookup_insert_ne by lia.
    apply Hfresh. lia.
  - unfold drop_buf. simpl. rewrite delete_insert_eq.
    apply delete_id. by apply Hfresh.
Qed.

Lemma vec_rep_after_sized_build h p N :
  0 ≤ N →
  vec_rep {| heap := <[p := Some <$> built N]> h; next := S p |}
          {| vbuf := Some p; vsize := N; vcap := N |} (built N).
Proof.
  intros HN. unfold vec_rep. simpl. rewrite length_built.
  split; [lia|]. split; [lia|]. split; [lia|].
  by rewrite lookup_insert_eq, Nat.sub_diag, app_nil_r.
Qed.

Lemma vec_build_held (v : variant) N m :
  is_raw v = false → 0 ≤ N → fresh_from m →
  ∃ vec m' evs,
    vec_build v N m = Ok vec m' evs ∧
    vec_rep m' vec (built N) ∧ held (heap m) m' vec.
Proof.
  intros Hv HN Hfresh.
  destruct (decide (N = 0)) as [->|Hpos].
  { exists vector_default, m, [].
    split; [by destruct v|]. split; [apply vec_rep_default|].
    by apply held_default. }
  assert (0 < N) as HN' by lia.
  destruct v; try discriminate Hv; simpl.
  - eexists _, _, _. split; [by apply BM_EmplaceBack_build_exact|].
    split; [by apply vec_rep_after_sized_build|].
    by apply held_after_sized_build.
  - eexists _, _, _. split; [by apply BM_PushBack_build_exact|].
    split; [by apply vec_rep_after_sized_build|].
    by apply held_after_sized_build.
  - eexists _, _, _. split; [by apply BM_FromRange_build_exact|].
    split; [by apply vec_rep_after_sized_build|].
    by apply held_after_sized_build.
  - by apply BM_FromRangeIterators_build_held.
Qed.

Lemma body_vec_restores (v : variant) N m :
  is_raw v = false → 0 ≤ N → fresh_from m →
  ∃ m' evs, body v N m = Ok tt m' evs ∧ heap m' = heap m ∧ fresh_from m'.
Proof.
  intros Hv HN Hfresh.
  destruct (vec_build_held v N m Hv HN Hfresh)
    as (vec & m1 & e & Hrun & (_ & _ & Hbuf) & [Hf1 Hdrop]).
  rewrite body_vec by done. run Hrun.
  unfold bind, DoNotOptimize, vector_destroy, delete_array.
  unfold drop_buf in Hdrop.
  destruct (vbuf vec) as [p|].
  - destruct Hbuf as [Hlt Hblk]. rewrite Hblk.
    eexists _, _. split; [reflexivity|]. split; [done|].
    intros q Hq. simpl in *. apply lookup_delete_None. right. by apply Hf1.
  - eexists _, _. split; [reflexivity|]. by split.
Qed.

(** X6: from a machine whose unused block names are unused, the loop body
    of each of the four vector variants, for every N >= 0, completes and
    leaves the heap exactly as it found it: the storage it obtained,
    including every block the growing constructor moved out of, has been
    released.  So does any number of repetitions of the body. *)
Theorem X6_vector_bodies_release_their_storage
    (v : variant) (N : Z) (state : State) (m : machine) :
  is_raw v = false → 0 ≤ N → fresh_from m →
  (∃ m' evs, body v N m = Ok tt m' evs ∧ heap m' = heap m) ∧
  (∃ m' evs,
     for_each_iteration state (body v N) m = Ok tt m' evs ∧
     heap m' = heap m).
Proof.
  intros Hv HN Hfresh. split.
  - destruct (body_vec_restores v N m Hv HN Hfresh) as (m' & e & ? & ? & _).
    by exists m', e.
  - unfold for_each_iteration.
    destruct (for_loop_ok (λ _ _, body v N)
                (λ _ _ m' _, heap m' = heap m ∧ fresh_from m')
                (Z.to_nat (iterations state)) 0 tt m (conj eq_refl Hfresh))
      as ([] & m' & evs & Hrun & Hh & _).
    + intros k [] m1 evs _ [Hh Hf].
      destruct (body_vec_restores v N m1 Hv HN Hf) as (m2 & e & ? & ? & ?).
      exists tt, m2, e. split; [done|]. split; [congruence|done].
    + by exists m', evs.
Qed.

Lemma X6_witness_growing_constructor :
  (∃ m' evs,
     body FromRangeIterators 5 initial_machine = Ok tt m' evs ∧
     heap m' = heap initial_machine) ∧
  (∃ m' evs,
     for_each_iteration
       {| range0 := 5; iterations := 3; items_processed := 0 |}
       (body FromRangeIterators 5) initial_machine = Ok tt m' evs ∧
     heap m' = heap initial_machine).
Proof.
  assert (0 ≤ 5) as H0 by lia.
  exact (X6_vector_bodies_release_their_storage FromRangeIterators 5
           {| range0 := 5; iterations := 3; items_processed := 0 |}
           initial_machine eq_refl H0 fresh_from_initial).
Defined.

(** ** What the loop body does after the build *)

(** X7: for every variant and every N >= 0 (with a byte count that fits,
    for the raw variants), the loop body is its build part followed by the
    events of [after_build]: a raw variant releases its block and then
    observes a pointer that denotes nothing; a vector variant observes the
    whole collection [built N] and then releases its storage, if it has
    any. *)
Theorem X7_observation_follows_build (v : variant) (N : Z) (m : machine) :
  0 ≤ N → (is_raw v = true → sizeof_MyStruct * N < SIZE_MOD) →
  ∃ h m1 e1 m2,
    build v N m = Ok h m1 e1 ∧
    collection m1 h = Some (built N) ∧
    body v N m = Ok tt m2 (e1 ++ after_build h (built N)).
Proof.
  intros HN Hfit. destruct (is_raw v) eqn:Hv.
  - eexists _, _, _, _.
    split; [by apply build_raw_ok; auto|].
    split; [apply collection_raw_full|].
    by apply body_raw_ok; auto.
  - destruct (vec_build_ok v N m Hv HN) as (vec & m1 & e & Hrun & Hrep & _).
    pose proof (collection_vec_rep _ _ _ Hrep) as Hcol.
    exists (Vector vec), m1, e.
    rewrite build_vec, body_vec by done. unfold lift_vec.
    run Hrun. run Hrun.
    unfold bind, ret, DoNotOptimize, vector_destroy, delete_array,
      after_build.
    rewrite Hcol. simpl. destruct Hrep as (_ & _ & Hbuf).
    destruct (vbuf vec) as [p|].
    + destruct Hbuf as [_ ->]. eexists. by rewrite app_nil_r.
    + eexists. by rewrite app_nil_r.
Qed.

Lemma X7_witness_push_back :
  ∃ h m1 e1 m2,
    build PushBack 2 initial_machine = Ok h m1 e1 ∧
    collection m1 h = Some (built 2) ∧
    body PushBack 2 initial_machine =
      Ok tt m2 (e1 ++ after_build h (built 2)).
Proof.
  assert (0 ≤ 2) as H0 by lia.
  assert (is_raw PushBack = true → sizeof_MyStruct * 2 < SIZE_MOD) as Hfit
    by (intros _; reflexivity).
  exact (X7_observation_follows_build PushBack 2 initial_machine H0 Hfit).
Defined.

(** ** The stored fields *)

Lemma int_of_size_t_range i : - INT_LIM ≤ int_of_size_t i < INT_LIM.
Proof.
  unfold int_of_size_t, INT_LIM, UINT_MOD.
  pose proof (Z.mod_pos_bound i 4294967296 eq_refl).
  case_bool_decide; lia.
Qed.

Lemma int_of_size_t_congruent i : (int_of_size_t i - i) mod UINT_MOD = 0.
Proof.
  unfold int_of_size_t, UINT_MOD.
  pose proof (Z_div_mod_eq_full i 4294967296) as Hi.
  case_bool_decide.
  - replace (i mod 4294967296 - i) with (- (i / 4294967296) * 4294967296)
      by lia.
    apply Z_mod_mult.
  - replace (i mod 4294967296 - 4294967296 - i)
      with ((- (i / 4294967296) - 1) * 4294967296) by lia.
    apply Z_mod_mult.
Qed.

Lemma int_of_size_t_period i : int_of_size_t (i + UINT_MOD) = int_of_size_t i.
Proof.
  unfold int_of_size_t, UINT_MOD.
  replace (i + 4294967296) with (i + 1 * 4294967296) by lia.
  by rewrite Z_mod_plus_full.
Qed.

(** X8: whatever the size, every element a variant stores has equal fields
    that lie in the range of [int] and are congruent to its index modulo
    2^32; elements whose indices differ by 2^32 are equal.  (The fields
    equal the index itself only below 2^31.) *)
Theorem X8_stored_fields (v : variant) (N : Z) :
  0 ≤ N → sizeof_MyStruct * N < SIZE_MOD →
  ∃ l,
    yields v N l ∧ length l = Z.to_nat N ∧
    ∀ i, 0 ≤ i < N →
      ∃ e, l !! Z.to_nat i = Some e ∧
           x e = y e ∧ - INT_LIM ≤ x e < INT_LIM ∧
           (x e - i) mod UINT_MOD = 0 ∧
           (i + UINT_MOD < N → l !! Z.to_nat (i + UINT_MOD) = Some e).
Proof.
  intros HN Hfit. exists (built N).
  split; [by apply yields_built|]. split; [apply length_built|].
  intros i Hi. exists (make_record i).
  split; [rewrite built_lookup by lia; by rewrite Z2Nat.id by lia|].
  split; [done|]. split; [apply int_of_size_t_range|].
  split; [apply int_of_size_t_congruent|].
  intros Hfar. rewrite built_lookup by (unfold UINT_MOD in *; lia).
  rewrite Z2Nat.id by (unfold UINT_MOD; lia).
  unfold make_record. by rewrite int_of_size_t_period.
Qed.

Lemma X8_witness_three :
  ∃ l,
    yields PushBack 3 l ∧ length l = Z.to_nat 3 ∧
    ∀ i, 0 ≤ i < 3 →
      ∃ e, l !! Z.to_nat i = Some e ∧
           x e = y e ∧ - INT_LIM ≤ x e < INT_LIM ∧
           (x e - i) mod UINT_MOD = 0 ∧
           (i + UINT_MOD < 3 → l !! Z.to_nat (i + UINT_MOD) = Some e).
Proof.
  assert (0 ≤ 3) as H0 by lia.
  assert (sizeof_MyStruct * 3 < SIZE_MOD) as Hfit by reflexivity.
  exact (X8_stored_fields PushBack 3 H0 Hfit).
Defined.

(** ** The reported item count and the work done *)

Lemma writes_app e1 e2 : writes (e1 ++ e2) = writes e1 ++ writes e2.
Proof. apply omap_app. Qed.

Lemma length_writes_flat_map {A} (f : A → list event) l :
  (∀ a, length (writes (f a)) = 1%nat) →
  length (writes (flat_map f l)) = length l.
Proof.
  intros H. induction l as [|a l IH]; [done|].
  simpl. rewrite writes_app, length_app, H, IH. done.
Qed.

(** One loop body of a variant with sized storage initialises N slots. *)
Lemma body_sized_writes (v : variant) N m :
  is_sized v = true → 0 ≤ N →
  (is_raw v = true → sizeof_MyStruct * N < SIZE_MOD) →
  ∃ m' evs, body v N m = Ok tt m' evs ∧ length (writes evs) = Z.to_nat N.
Proof.
  intros Hs HN Hfit. destruct (is_raw v) eqn:Hv.
  - eexists _, _. split; [by apply body_raw_ok; auto|].
    rewrite writes_app.
    change (writes (EvAlloc (next m) N :: ?e)) with (writes e).
    rewrite writes_raw_evok, length_app, length_flat_map_singleton,
      length_seqZ. simpl. lia.
  - destruct (decide (N = 0)) as [->|Hpos].
    { exists m, [EvObserve None (Some [])].
      by destruct v; try discriminate. }
    assert (0 < N) as HN' by lia.
    assert (∃ evs,
      vec_build v N m =
        Ok {| vbuf := Some (next m); vsize := N; vcap := N |}
           {| heap := <[next m := Some <$> built N]> (heap m);
              next := S (next m) |}
           (EvAlloc (next m) N :: evs) ∧
      length (writes evs) = Z.to_nat N) as (evs & Hrun & Hlen).
    { destruct v; try discriminate; simpl; eexists;
        (split; [by first [ apply BM_EmplaceBack_build_exact
                          | apply BM_PushBack_build_exact
                          | apply BM_FromRange_build_exact ]|]);
        by rewrite length_writes_flat_map, length_seqZ. }
    rewrite body_vec by done. run Hrun.
    unfold bind, DoNotOptimize, vector_destroy, delete_array. simpl.
    rewrite lookup_insert_eq. eexists _, _. split; [reflexivity|].
    change (writes (EvAlloc (next m) N :: ?e)) with (writes e).
    rewrite writes_app, length_app, Hlen. simpl. lia.
Qed.

(** X9: for the six variants that obtain their storage once (all but the
    constructor from an iterator pair), a run of the benchmark function
    with argument N and [it] iterations initialises exactly it * N slots,
    and that is the number it reports with [SetItemsProcessed], as long as
    the product fits int64_t (and the byte count of a raw block fits
    size_t). *)
Theorem X9_reported_items_are_the_slots_written
    (v : variant) (state : State) (m : machine) :
  is_sized v = true →
  0 ≤ range0 state < INT64_LIM →
  (is_raw v = true → sizeof_MyStruct * range0 state < SIZE_MOD) →
  0 ≤ iterations state →
  iterations state * range0 state < INT64_LIM →
  ∃ state' m' evs,
    benchmark_fn (body v) state m = Ok state' m' evs ∧
    items_processed state' = iterations state * range0 state ∧
    Z.of_nat (length (writes evs)) = items_processed state'.
Proof.
  intros Hs HN Hfit Hit Hprod. unfold benchmark_fn.
  assert (size_t_of_int64 (range0 state) = range0 state) as ->.
  { unfold size_t_of_int64. apply Z.mod_small.
    unfold INT64_LIM, SIZE_MOD in *. lia. }
  destruct (for_loop_ok (λ _ _, body v (range0 state))
              (λ k _ _ evs,
                 length (writes evs) = (k * Z.to_nat (range0 state))%nat)
              (Z.to_nat (iterations state)) 0 tt m eq_refl)
    as ([] & m' & evs & Hrun & Hlen).
  { intros k [] m1 evs _ Hlen.
    destruct (body_sized_writes v (range0 state) m1 Hs ltac:(lia) Hfit)
      as (m2 & e & Hb & He).
    exists tt, m2, e. split; [done|].
    rewrite writes_app, length_app, Hlen, He. lia. }
  unfold for_each_iteration. run Hrun.
  eexists _, m', (evs ++ []). split; [reflexivity|]. simpl.
  rewrite items_processed_exact by lia. split; [done|].
  rewrite app_nil_r, Hlen. nia.
Qed.

Lemma X9_witness_emplace_back :
  ∃ state' m' evs,
    BM_EmplaceBack {| range0 := 4; iterations := 3; items_processed := 0 |}
      initial_machine = Ok state' m' evs ∧
    items_processed state' = 3 * 4 ∧
    Z.of_nat (length (writes evs)) = items_processed state'.
Proof.
  assert (0 ≤ 4 < INT64_LIM) as HN by (unfold INT64_LIM; lia).
  assert (is_raw EmplaceBack = true → sizeof_MyStruct * 4 < SIZE_MOD)
    as Hfit by (intros _; reflexivity).
  assert (0 ≤ 3) as Hit by lia.
  assert (3 * 4 < INT64_LIM) as Hprod by reflexivity.
  exact (X9_reported_items_are_the_slots_written EmplaceBack
    {| range0 := 4; iterations := 3; items_processed := 0 |}
    initial_machine eq_refl HN Hfit Hit Hprod).
Defined.
